(** * MolStat: histogram, simulator and simulate-model core

    A shallow embedding of the simulator framework of MolStat
    (src/general/histogram_tools/histogram.cc,
    src/general/simulator_tools/simulator.cc and
    src/general/simulator_tools/simulate_model.h) together with the
    properties stated about it.

    Conventions of the embedding.
    - [double] is modelled by the exact rationals [Q]: a finite double is a
      rational in [[DBL_LOWEST, DBL_MAX]], [<], [>] and [==] on doubles are
      the rational order and equality, and rounding, infinities and NaN are
      not modelled.  The comparisons of the code are exact on finite
      doubles, its arithmetic is not: what depends on rounding, on an
      overflow or on a value that is not finite is stated on module
      [HistogramDoubles], the same functions on binary64 doubles.
    - [std::size_t] is [N] where the source computes with it (the product of
      the bin counts wraps modulo 2^64) and [nat] where it indexes a
      container.
    - a C++ member function that may throw returns a [result]: [Ok] with the
      new object state (and the returned value), or [Err] with the exception.
      The caller keeps the old object on [Err], as every [throw] of the
      modelled functions happens before the first mutation.
    - [for(std::size_t j = 0; j < n; ++j) body] is [for_loop n body]. *)

From Stdlib Require Import Ascii String QArith Qround Reals Lra Lqa.
From Stdlib Require Floats.
From stdpp Require Import gmap strings list.

Set Default Proof Using "Type".

(** ** Results of fallible member functions *)

Inductive result (E A : Type) : Type :=
| Ok (a : A)
| Err (e : E).
Arguments Ok {E A} a.
Arguments Err {E A} e.

Definition rbind {E A B} (r : result E A) (k : A → result E B) : result E B :=
  match r with
  | Ok a => k a
  | Err e => Err e
  end.

Definition is_Ok {E A} (r : result E A) : Prop := ∃ a, r = Ok a.
Definition is_Err {E A} (r : result E A) : Prop := ∃ e, r = Err e.

(** ** Counted loops *)

(** [for(std::size_t j = 0; j < n; ++j) s = body(j, s);] *)
Definition for_loop {St : Type} (n : nat) (body : nat → St → St) (s : St) : St :=
  fold_left (λ acc j, body j acc) (seq 0 n) s.

(** The same loop with a body that may throw: the first exception leaves the
    loop. *)
Fixpoint for_loop_from {E St : Type} (start n : nat)
    (body : nat → St → result E St) (s : St) : result E St :=
  match n with
  | O => Ok s
  | S n' => rbind (body start s) (for_loop_from (S start) n' body)
  end.

Definition for_loopM {E St : Type} (n : nat)
    (body : nat → St → result E St) (s : St) : result E St :=
  for_loop_from 0 n body s.

(** ** Histogram (histogram.cc) *)

Module Histogram.

Local Open Scope Q_scope.

(** [std::numeric_limits<double>::max()], (2^53 - 1) * 2^971. *)
Definition DBL_MAX : Q := inject_Z ((2 ^ 53 - 1) * 2 ^ 971).

(** [std::numeric_limits<double>::lowest()]. *)
Definition DBL_LOWEST : Q := - DBL_MAX.

(** A finite double. *)
Definition finite (x : Q) : Prop := DBL_LOWEST <= x ∧ x <= DBL_MAX.

(** [molstat::BinStyle]: the public member [nbins] and the three abstract
    functions of the interface (bin_style.h is not part of the sources; the
    members are those histogram.cc and doc/5-extend.dox use). *)
Record BinStyle : Type := {
  nbins : N;
  mask : Q → Q;
  invmask : Q → Q;
  dmaskdx : Q → Q
}.

(** Modelled from the spec: bin_linear.cc is missing; the linear style has
    the identity as mask. *)
Definition BinLinear (n : N) : BinStyle :=
  {| nbins := n; mask := λ x, x; invmask := λ u, u; dmaskdx := λ _, 1 |}.

(** The exceptions of histogram.cc, one constructor per [throw]. *)
Inductive hist_error : Type :=
| CannotAddAfterBinning          (* runtime_error, add_data *)
| IncorrectDimensionality        (* invalid_argument, add_data *)
| AlreadyBinned                  (* runtime_error, bin_data *)
| IncorrectNumberOfStyles        (* invalid_argument, bin_data *)
| NoBinStyle (j : nat)           (* runtime_error, bin_data *)
| NoBins                         (* runtime_error, bin_data *)
| UnableToBin (j : nat).         (* runtime_error, bin_data *)

Inductive cpp_exception : Type := runtime_error | invalid_argument.

Definition exception_class (e : hist_error) : cpp_exception :=
  match e with
  | IncorrectDimensionality | IncorrectNumberOfStyles => invalid_argument
  | _ => runtime_error
  end.

(** The data members of [molstat::Histogram].  [extremes[j]] is the pair
    (minimum, maximum) of axis [j]; [data] is a forward list, newest tuple
    first. *)
Record Histogram : Type := {
  haveBinned : bool;
  ndim : nat;
  data : list (list Q);
  extremes : list (Q * Q);
  bin_value : list (list Q);
  binned_data : list Q
}.

(** [Histogram::Histogram(std::size_t ndim_)] *)
Definition new (ndim_ : nat) : Histogram :=
  {| haveBinned := false;
     ndim := ndim_;
     data := [];
     extremes := replicate ndim_ (DBL_MAX, DBL_LOWEST);
     bin_value := [];
     binned_data := [] |}.

(** [v[j]] and [extremes[j]]; the default is never read when the index is
    in range. *)
Definition at_ (v : list Q) (j : nat) : Q := nth j v 0.
Definition ext_at (ext : list (Q * Q)) (j : nat) : Q * Q := nth j ext (0, 0).

(** Body of the loop of [add_data]: the two tests on [v[j]], each followed
    by its assignment. *)
Definition check_limits (v : list Q) (j : nat) (ext : list (Q * Q))
    : list (Q * Q) :=
  let ext1 :=
    if Qlt_le_dec (at_ v j) (fst (ext_at ext j))
    then <[j := (at_ v j, snd (ext_at ext j))]> ext
    else ext in
  if Qlt_le_dec (snd (ext_at ext1 j)) (at_ v j)
  then <[j := (fst (ext_at ext1 j), at_ v j)]> ext1
  else ext1.

(** [void Histogram::add_data(std::valarray<double> v)] *)
Definition add_data (h : Histogram) (v : list Q) : result hist_error Histogram :=
  if haveBinned h then Err CannotAddAfterBinning
  else if negb (length v =? ndim h)%nat then Err IncorrectDimensionality
  else Ok {| haveBinned := haveBinned h;
             ndim := ndim h;
             data := v :: data h;
             extremes := for_loop (ndim h) (check_limits v) (extremes h);
             bin_value := bin_value h;
             binned_data := binned_data h |}.

(** Product of two [std::size_t]. *)
Definition size_t_mul (a b : N) : N := ((a * b) mod 2 ^ 64)%N.

(** [size_t] converted to [double]. *)
Definition of_size (n : N) : Q := inject_Z (Z.of_N n).
Definition of_index (j : nat) : Q := inject_Z (Z.of_nat j).

(** Body of the first loop of [bin_data]: the three checks on axis [j], then
    [total_bins *= binstyles[j]->nbins].  A [shared_ptr] that is [nullptr] is
    [None]; the list has [ndim] entries when the loop runs. *)
Definition check_axis (ext : list (Q * Q)) (binstyles : list (option BinStyle))
    (j : nat) (total_bins : N) : result hist_error N :=
  match binstyles !! j with
  | Some (Some bs) =>
      if (nbins bs =? 0)%N then Err NoBins
      else if Qeq_bool (fst (ext_at ext j)) (snd (ext_at ext j))
                && negb (nbins bs =? 1)%N
      then Err (UnableToBin j)
      else Ok (size_t_mul total_bins (nbins bs))
  | _ => Err (NoBinStyle j)
  end.

(** [std::vector<double> Histogram::bin_values(dmin, dmax, dwidth, bstyle)] *)
Definition bin_values (dmin dmax dwidth : Q) (bstyle : BinStyle) : list Q :=
  for_loop (N.to_nat (nbins bstyle))
    (λ j ret,
       let lower := invmask bstyle (dmin + of_index j * dwidth) in
       let upper := invmask bstyle (dmin + of_index (j + 1) * dwidth) in
       <[j := 0.5 * (lower + upper)]> ret)
    (replicate (N.to_nat (nbins bstyle)) 0).

(** Body of the second loop of [bin_data]: the masked bounds of axis [j],
    the masked width of its bins, and [bin_value[j]]. *)
Definition set_bin_value (ext : list (Q * Q)) (binstyles : list (option BinStyle))
    (j : nat) (bv : list (list Q)) : list (list Q) :=
  match binstyles !! j with
  | Some (Some bs) =>
      let b0 := mask bs (fst (ext_at ext j)) in
      let b1 := mask bs (snd (ext_at ext j)) in
      let b2 := (b1 - b0) / of_size (nbins bs) in
      <[j := bin_values b0 b1 b2 bs]> bv
  | _ => bv (* not reached: the first loop found a style for every axis *)
  end.

(** [void Histogram::bin_data(const std::vector<std::shared_ptr<const
    BinStyle>> &binstyles)].  The function ends after the index bounds
    [max_indices] are set up (a local that is dropped on return): the tuples
    of [data] are not tallied and [haveBinned] is not assigned. *)
Definition bin_data (h : Histogram) (binstyles : list (option BinStyle))
    : result hist_error Histogram :=
  if haveBinned h then Err AlreadyBinned
  else if negb (length binstyles =? ndim h)%nat then Err IncorrectNumberOfStyles
  else
    rbind (for_loopM (ndim h) (check_axis (extremes h) binstyles) 1%N)
      (λ total_bins,
         Ok {| haveBinned := haveBinned h;
               ndim := ndim h;
               data := data h;
               extremes := extremes h;
               bin_value :=
                 for_loop (ndim h) (set_bin_value (extremes h) binstyles)
                   (resize (ndim h) [] (bin_value h));
               binned_data :=
                 resize (N.to_nat total_bins) 0 (binned_data h) |}).

(** A style whose mask is not linear and stays within the rationals:
    u = -1/x, increasing on the positive doubles. *)
Definition BinNegReciprocal (n : N) : BinStyle :=
  {| nbins := n; mask := λ x, - / x; invmask := λ u, - / u;
     dmaskdx := λ x, / (x * x) |}.

(** The ten points of test_histogram2d_linear.cc. *)
Definition scenario_points : list (list Q) :=
  [[0.4; 0.4]; [0.3; 0.7]; [0.4; 0.0]; [1.0; 0.7]; [0.1; 0.8];
   [0.6; 0.1]; [0.2; 0.2]; [0.3; 0.0]; [0.7; 1.0]; [0.0; 0.8]].

(** Modelled from the spec: the tally of the tuples, which [bin_data] does
    not reach; "Assign each raw tuple to the bin index per axis by locating
    its masked coordinate within the partition; accumulate a count per
    multi-index bin", the upper bound of an axis being open.  [axis_bin] is
    the bin of a coordinate on one axis, [bin_of] the row-major index of the
    bin of a tuple, [intended_tally] the counts. *)
Definition axis_bin (bs : BinStyle) (e : Q * Q) (x : Q) : option nat :=
  let b0 := mask bs (fst e) in
  let b2 := (mask bs (snd e) - b0) / of_size (nbins bs) in
  let u := mask bs x in
  if Qlt_le_dec u b0 then None
  else
    let i := Z.to_nat (Qfloor ((u - b0) / b2)) in
    if (i <? N.to_nat (nbins bs))%nat then Some i else None.

Fixpoint bin_of (styles : list BinStyle) (ext : list (Q * Q)) (v : list Q)
    (idx : nat) : option nat :=
  match styles, ext, v with
  | bs :: styles', e :: ext', x :: v' =>
      match axis_bin bs e x with
      | Some i => bin_of styles' ext' v' (idx * N.to_nat (nbins bs) + i)%nat
      | None => None
      end
  | _, _, _ => Some idx
  end.

Definition intended_tally (styles : list BinStyle) (ext : list (Q * Q))
    (vs : list (list Q)) (total_bins : nat) : list nat :=
  fold_right
    (λ v counts,
       match bin_of styles ext v 0 with
       | Some k => alter S k counts
       | None => counts
       end)
    (replicate total_bins 0%nat) vs.

(** *** Notions used to state the properties of the histogram *)

(** What the two tests of [add_data] do to one pair (minimum, maximum). *)
Definition widen (x : Q) (e : Q * Q) : Q * Q :=
  (if Qlt_le_dec x (fst e) then x else fst e,
   if Qlt_le_dec (snd e) x then x else snd e).

(** The values inserted on axis [j], in the order of the list. *)
Definition column (j : nat) (vs : list (list Q)) : list Q :=
  map (λ v, at_ v j) vs.

(** [m] is the minimum (maximum) of the values [xs]: it is one of them and
    bounds all of them. *)
Definition is_minimum (m : Q) (xs : list Q) : Prop :=
  (∃ x, x ∈ xs ∧ x == m) ∧ ∀ x, x ∈ xs → m <= x.
Definition is_maximum (m : Q) (xs : list Q) : Prop :=
  (∃ x, x ∈ xs ∧ x == m) ∧ ∀ x, x ∈ xs → x <= m.

(** Axis [j] has zero span: the stored minimum and maximum are equal. *)
Definition zero_span (h : Histogram) (j : nat) : Prop :=
  fst (ext_at (extremes h) j) == snd (ext_at (extremes h) j).

(** Axis [j] cannot be binned with the styles [binstyles]: no style is bound
    to it, or its style has no bin, or its style has more than one bin and
    the axis has zero span. *)
Definition axis_rejected (h : Histogram) (binstyles : list (option BinStyle))
    (j : nat) : Prop :=
  match binstyles !! j with
  | Some (Some bs) => nbins bs = 0%N ∨ ((1 < nbins bs)%N ∧ zero_span h j)
  | _ => True
  end.

(** Axis [j] cannot be binned with the styles [binstyles] when the tuples
    [vs] were observed: no style is bound to it, or its style has no bin, or
    its style has more than one bin while all the values observed on the
    axis are equal. *)
Definition observed_rejected (vs : list (list Q))
    (binstyles : list (option BinStyle)) (j : nat) : Prop :=
  match binstyles !! j with
  | Some (Some bs) =>
      nbins bs = 0%N ∨
      ((1 < nbins bs)%N ∧ ∀ x y, x ∈ column j vs → y ∈ column j vs → x == y)
  | _ => True
  end.

(** No style is bound to axis [j], or its style has no bin. *)
Definition style_rejected (binstyles : list (option BinStyle)) (j : nat)
    : Prop :=
  match binstyles !! j with
  | Some (Some bs) => nbins bs = 0%N
  | _ => True
  end.

(** The pair held for an axis after its values [xs] went through the tests
    of [add_data], starting from the pair [e]. *)
Definition widen_all (xs : list Q) (e : Q * Q) : Q * Q :=
  fold_left (λ acc x, widen x acc) xs e.

(** Adding the tuples of a list, first to last. *)
Fixpoint add_all (h : Histogram) (vs : list (list Q)) : result hist_error Histogram :=
  match vs with
  | [] => Ok h
  | v :: vs' => rbind (add_data h v) (λ h', add_all h' vs')
  end.

(** Axis [j] passes the three checks of the first loop of [bin_data]. *)
Definition axis_accepted (ext : list (Q * Q)) (binstyles : list (option BinStyle))
    (j : nat) : Prop :=
  ∃ bs, binstyles !! j = Some (Some bs) ∧ nbins bs ≠ 0%N ∧
        ¬ (fst (ext_at ext j) == snd (ext_at ext j) ∧ nbins bs ≠ 1%N).

(** Two tuples on two axes, and the histogram that holds them. *)
Definition two_tuples : list (list Q) := [[0.4; 0.7]; [0.3; 0.9]].

Definition two_tuples_histogram : Histogram :=
  {| haveBinned := false; ndim := 2; data := rev two_tuples;
     extremes := [(0.3, 0.4); (0.7, 0.9)]; bin_value := []; binned_data := [] |}.

(** The histogram of [two_tuples] binned with 2 and 3 linear bins. *)
Definition two_styles : list (option BinStyle) :=
  [Some (BinLinear 2); Some (BinLinear 3)].

Definition two_tuples_binned : Histogram :=
  Eval vm_compute in
    match bin_data two_tuples_histogram two_styles with
    | Ok h => h
    | Err _ => two_tuples_histogram
    end.

End Histogram.

(** ** Simulator (simulator.cc) and the interface of its model
       (simulate_model.h) *)

(** The exceptions of the simulator tools that the modelled functions throw
    (simulator_exceptions.h), and [std::out_of_range]. *)
Inductive sim_exception : Type :=
| NoObservables
| IncompatibleObservable
| NoObservableProduced
| MissingDistribution
| NoSubmodels
| NotCompositeSimulateModel
| IncompatibleSubmodel
| std_out_of_range.

(** [ObservableIndex] and [SimulateModelType] are [std::type_index]: the
    name of the class. *)
Abbreviation ObservableIndex := string (only parsing).
Abbreviation SimulateModelType := string (only parsing).

(** [ObservableFunction]: [double(const std::valarray<double> &)], which
    "may throw molstat::NoObservableProduced" or what the model throws. *)
Abbreviation ObservableFunction := (list Q → result sim_exception Q) (only parsing).

(** The two member functions of [molstat::SimulateModel] that the simulator
    calls.  [generateParameters] takes the random number engine by reference:
    it returns the engine it leaves.  [getObservableFunction] throws
    [IncompatibleObservable] or returns the function: [None] is the throw. *)
Class SimulateModelOps (Engine Model : Type) : Type := {
  generateParameters : Model → Engine → list Q * Engine;
  getObservableFunction : Model → ObservableIndex → option ObservableFunction
}.

Module Simulator.
Section WithModel.
Context {Engine Model : Type} `{!SimulateModelOps Engine Model}.

(** The data members of [molstat::Simulator]. *)
Record Simulator : Type := {
  model : Model;
  obs_functions : list ObservableFunction
}.

(** [Simulator::Simulator(std::shared_ptr<SimulateModel> &model_)] *)
Definition new (model_ : Model) : Simulator :=
  {| model := model_; obs_functions := [] |}.

(** Body of the loop of [simulate]: [ret[j] = obs_functions[j](params)].
    The index is in range when the loop runs. *)
Definition calculate (fs : list ObservableFunction) (params : list Q)
    (j : nat) (ret : list Q) : result sim_exception (list Q) :=
  match fs !! j with
  | Some f => rbind (f params) (λ x, Ok (<[j := x]> ret))
  | None => Ok ret
  end.

(** [std::valarray<double> Simulator::simulate(gsl_rng_ptr &r) const]:
    the outcome and the engine as the call leaves it. *)
Definition simulate (s : Simulator) (r : Engine)
    : result sim_exception (list Q) * Engine :=
  let num_obs := length (obs_functions s) in
  if (num_obs =? 0)%nat then (Err NoObservables, r)
  else
    let ret := replicate num_obs 0%Q in
    let '(params, r') := generateParameters (model s) r in
    (for_loopM num_obs (calculate (obs_functions s) params) ret, r').

(** [void Simulator::setObservable(std::size_t j, const std::type_index
    &obs)] *)
Definition setObservable (s : Simulator) (j : nat) (obs : ObservableIndex)
    : result sim_exception Simulator :=
  let length_ := length (obs_functions s) in
  if (length_ <? j)%nat then Err std_out_of_range
  else
    match getObservableFunction (model s) obs with
    | None => Err IncompatibleObservable
    | Some func =>
        if (j <? length_)%nat
        then Ok {| model := model s;
                   obs_functions := <[j := func]> (obs_functions s) |}
        else Ok {| model := model s;
                   obs_functions := obs_functions s ++ [func] |}
    end.

(** *** Notions used to state the properties of the simulator *)

(** The observable functions [fs] applied in turn to one parameter
    vector; the first exception ends the evaluation. *)
Fixpoint eval_all (params : list Q) (fs : list ObservableFunction)
    : result sim_exception (list Q) :=
  match fs with
  | [] => Ok []
  | f :: fs' =>
      rbind (f params) (λ x, rbind (eval_all params fs') (λ xs, Ok (x :: xs)))
  end.

(** The model supports the observable [obs]. *)
Definition supports (m : Model) (obs : ObservableIndex) : Prop :=
  is_Some (getObservableFunction m obs).

End WithModel.
End Simulator.

(** ** A model in the manner of the test suite

    test_simulate_model_interface_classes.h is not part of the sources; the
    observables are those of tests/simulate_model_interface_observables.h.
    The model has one parameter, drawn from a constant distribution; it
    implements [BasicObs1] (the parameter), [BasicObs2] (a constant) and
    [BasicObs3] (which throws), and not [BasicObs4].  The engine of the test
    is the number of parameter vectors drawn from it. *)
Module TestModel.

Inductive TestModel : Type := test_model.

Definition distvalue : Q := 7.5.
Definition constvalue : Q := 4.

Definition observable (obs : ObservableIndex) : option ObservableFunction :=
  if String.eqb obs "BasicObs1" then Some (λ params, Ok (nth 0 params 0%Q))
  else if String.eqb obs "BasicObs2" then Some (λ _, Ok constvalue)
  else if String.eqb obs "BasicObs3" then Some (λ _, Err NoObservableProduced)
  else None.

#[export] Instance test_model_ops : SimulateModelOps nat TestModel :=
  {| generateParameters := λ _ r, ([distvalue], S r);
     getObservableFunction := λ _ obs, observable obs |}.

(** The simulator of the test once columns 0 and 1 are bound to
    [BasicObs1] and [BasicObs2]. *)
Definition two_columns : Simulator.Simulator :=
  {| Simulator.model := test_model;
     Simulator.obs_functions :=
       [λ params, Ok (nth 0 params 0%Q); λ _, Ok constvalue] |}.

End TestModel.

(** ** Simulate models and their factory (simulate_model.h)

    simulate_model.cc is not part of the sources: the header gives the data
    members, [makeFactory] and the documented contracts. *)

(** Modelled from the spec: string_tools.h is missing; [to_lower] maps the
    letters A-Z to a-z. *)
Definition to_lower_ascii (c : ascii) : ascii :=
  let n := nat_of_ascii c in
  if ((65 <=? n) && (n <=? 90))%nat then ascii_of_nat (n + 32) else c.

Fixpoint to_lower (s : string) : string :=
  match s with
  | EmptyString => EmptyString
  | String c s' => String (to_lower_ascii c) (to_lower s')
  end.

Module Model.
Section WithEngine.
Context {Engine : Type}.

(** [molstat::RandomDistribution]: [sample] draws from the engine, which it
    takes by reference. *)
Record RandomDistribution : Type := {
  sample : Engine → Q * Engine
}.

(** [ConstantDistribution]: "returns value". *)
Definition ConstantDistribution (value : Q) : RandomDistribution :=
  {| sample := λ r, (value, r) |}.

(** The data members of [SimulateModel] and [CompositeSimulateModel] that
    the parameters depend on.  [getSubmodelType] is [Some] for a composite
    model; [dists[j]] is [None] for a null handle.  The index arrays kept
    with the submodels route parameters to observables and are left out. *)
#[warnings="-register-all"] Inductive SimulateModel : Type := mkSimulateModel {
  get_names : list string;
  dists : list (option RandomDistribution);
  getModelType : SimulateModelType;
  getSubmodelType : option SimulateModelType;
  submodels : list SimulateModel
}.

(** Modelled from the spec: simulate_model.cc is missing;
    [get_num_composite_parameters] is the number of parameters the model
    declares itself. *)
Definition get_num_composite_parameters (m : SimulateModel) : nat :=
  length (get_names m).

(** Modelled from the spec: simulate_model.cc is missing; "own declared
    count (+ recursively, for composite, submodel counts)", accumulated
    over the list of submodels. *)
Fixpoint get_num_parameters (m : SimulateModel) : nat :=
  match m with
  | mkSimulateModel names _ _ _ subs =>
      fold_left (λ ret sub, (ret + get_num_parameters sub)%nat) subs
        (length names)
  end.

(** Modelled from the spec: simulate_model.cc is missing; "samples one
    value per bound distribution in declared order".  A null handle is never
    sampled in a run; it stands for the value 0 here. *)
Fixpoint sample_dists (ds : list (option RandomDistribution)) (r : Engine)
    : list Q * Engine :=
  match ds with
  | [] => ([], r)
  | d :: ds' =>
      let '(x, r1) := match d with
                      | Some dist => sample dist r
                      | None => (0%Q, r)
                      end in
      let '(xs, r2) := sample_dists ds' r1 in
      (x :: xs, r2)
  end.

(** Modelled from the spec: simulate_model.cc is missing; "samples one
    value per bound distribution in declared order; composite models
    sample their own parameters first, then recursively sample and
    concatenate each submodel's parameters in submodel-list order". *)
Fixpoint generateParameters (m : SimulateModel) (r : Engine)
    : list Q * Engine :=
  match m with
  | mkSimulateModel _ ds _ _ subs =>
      fold_left
        (λ acc sub,
           let '(qs, r2) := generateParameters sub (snd acc) in
           (fst acc ++ qs, r2))
        subs (sample_dists ds r)
  end.

(** Every model of the tree has one handle per declared name. *)
Fixpoint dists_sized (m : SimulateModel) : Prop :=
  match m with
  | mkSimulateModel names ds _ _ subs =>
      length ds = length names ∧
      fold_right (λ sub P, dists_sized sub ∧ P) True subs
  end.

(** The data members of [SimulateModelFactory].  [comp_model] is the
    pointer [model] cast to a composite model: the same object, or
    [nullptr]. *)
Record SimulateModelFactory : Type := {
  model : SimulateModel;
  remaining_names : gset string;
  model_names : list string
}.

Definition comp_model (f : SimulateModelFactory) : option SimulateModel :=
  match getSubmodelType (model f) with
  | Some _ => Some (model f)
  | None => None
  end.

(** [SimulateModelFactory::makeFactory<T>()], with [proto] the object
    [make_shared<T>()] builds. *)
Definition makeFactory (proto : SimulateModel) : SimulateModelFactory :=
  let model_names_ := get_names proto in
  let remaining := fold_left (λ acc iter, {[to_lower iter]} ∪ acc)
                     model_names_ (∅ : gset string) in
  {| model := {| get_names := get_names proto;
                 dists := resize (get_num_parameters proto) None (dists proto);
                 getModelType := getModelType proto;
                 getSubmodelType := getSubmodelType proto;
                 submodels := submodels proto |};
     remaining_names := remaining;
     model_names := model_names_ |}.

(** Modelled from the spec: simulate_model.cc is missing; the position of
    a (lowercase) name among the declared names, which is the position of
    its distribution in [dists]. *)
Fixpoint position (name : string) (names : list string) : option nat :=
  match names with
  | [] => None
  | n :: names' =>
      if String.eqb (to_lower n) name then Some 0%nat
      else S <$> position name names'
  end.

(** Modelled from the spec: simulate_model.cc is missing; "binds name
    (case-insensitive) to a distribution if it is among the model's
    required/remaining names; otherwise it is a silent no-op for that
    call (used-flag output parameter signals whether it was consumed)". *)
Definition setDistribution (f : SimulateModelFactory) (name : string)
    (dist : option RandomDistribution) : SimulateModelFactory * bool :=
  let name := to_lower name in
  if decide (name ∈ remaining_names f) then
    let m := model f in
    let ds := match position name (model_names f) with
              | Some pos => <[pos := dist]> (dists m)
              | None => dists m
              end in
    ({| model := {| get_names := get_names m; dists := ds;
                    getModelType := getModelType m;
                    getSubmodelType := getSubmodelType m;
                    submodels := submodels m |};
        remaining_names := remaining_names f ∖ {[name]};
        model_names := model_names f |}, true)
  else (f, false).

(** Modelled from the spec: simulate_model.cc is missing; "fails if the
    underlying model is not composite, or if the submodel's runtime type
    identity does not match the composite's declared required submodel
    type". *)
Definition addSubmodel (f : SimulateModelFactory) (submodel_add : SimulateModel)
    : result sim_exception SimulateModelFactory :=
  match getSubmodelType (model f) with
  | None => Err NotCompositeSimulateModel
  | Some t =>
      if String.eqb (getModelType submodel_add) t then
        let m := model f in
        Ok {| model := {| get_names := get_names m; dists := dists m;
                          getModelType := getModelType m;
                          getSubmodelType := getSubmodelType m;
                          submodels := submodels m ++ [submodel_add] |};
              remaining_names := remaining_names f;
              model_names := model_names f |}
      else Err IncompatibleSubmodel
  end.

(** Modelled from the spec: simulate_model.cc is missing; "validates all
    declared names are bound (else missing-distribution error) and, for
    composite models, that >= 1 submodel was added (else no-submodels
    error); returns the finalized, immutable model". *)
Definition getModel (f : SimulateModelFactory)
    : result sim_exception SimulateModel :=
  if decide (remaining_names f = ∅) then
    match comp_model f with
    | Some cm =>
        match submodels cm with
        | [] => Err NoSubmodels
        | _ :: _ => Ok (model f)
        end
    | None => Ok (model f)
    end
  else Err MissingDistribution.

(** *** Notions used to state the properties of the factory *)

(** The calls made on a factory before [getModel]. *)
Inductive factory_call : Type :=
| SetDistribution (name : string) (dist : option RandomDistribution)
| AddSubmodel (submodel_add : SimulateModel).

(** The factory after the calls, or the exception of the first call that
    throws. *)
Fixpoint after_calls (f : SimulateModelFactory) (calls : list factory_call)
    : result sim_exception SimulateModelFactory :=
  match calls with
  | [] => Ok f
  | SetDistribution name dist :: calls' =>
      after_calls (fst (setDistribution f name dist)) calls'
  | AddSubmodel sub :: calls' =>
      rbind (addSubmodel f sub) (λ f', after_calls f' calls')
  end.

(** A distribution was bound to the declared name [name] by one of the
    calls (names are compared without case). *)
Definition bound_by (calls : list factory_call) (name : string) : Prop :=
  ∃ name' dist, SetDistribution name' dist ∈ calls ∧
                to_lower name' = to_lower name.

(** The submodels the calls add, in order. *)
Fixpoint added_submodels (calls : list factory_call) : list SimulateModel :=
  match calls with
  | [] => []
  | AddSubmodel sub :: calls' => sub :: added_submodels calls'
  | SetDistribution _ _ :: calls' => added_submodels calls'
  end.

(** One of the calls added a submodel. *)
Definition adds_submodel (calls : list factory_call) : Prop :=
  ∃ sub, AddSubmodel sub ∈ calls.

End WithEngine.
Arguments RandomDistribution Engine : clear implicits.
Arguments SimulateModel Engine : clear implicits.
Arguments SimulateModelFactory Engine : clear implicits.
Arguments factory_call Engine : clear implicits.
End Model.

(** ** A junction of channels

    A composite model in the manner of the transport junction of the
    documentation: the junction declares no parameter of its own and takes
    submodels of type "Channel"; a channel declares two parameters.  The
    engine is the number of values drawn from it. *)
Module Junction.
Import Model.

Definition channel_proto : SimulateModel nat :=
  mkSimulateModel ["epsilon"; "Gamma"] [] "Channel" None [].

Definition junction_proto : SimulateModel nat :=
  mkSimulateModel [] [] "SimulateModel" (Some "Channel") [].

(** The calls that bind constant distributions to the two names of a
    channel. *)
Definition channel_calls (a b : Q) : list (factory_call nat) :=
  [SetDistribution "Epsilon" (Some (ConstantDistribution a));
   SetDistribution "gamma" (Some (ConstantDistribution b))].

Definition channel_factory : SimulateModelFactory nat :=
  Eval vm_compute in
    match after_calls (makeFactory channel_proto) (channel_calls 1 2) with
    | Ok f => f
    | Err _ => makeFactory channel_proto
    end.

Definition channel (a b : Q) : SimulateModel nat :=
  mkSimulateModel ["epsilon"; "Gamma"]
    [Some (ConstantDistribution a); Some (ConstantDistribution b)]
    "Channel" None [].

Definition junction : SimulateModel nat :=
  mkSimulateModel [] [] "SimulateModel" (Some "Channel")
    [channel 1 2; channel 3 4].

End Junction.

(** ** Binning styles over the real numbers

    bin_style.h, bin_linear.cc and bin_log.cc are not part of the sources.
    The logarithm does not stay within the rationals, so the two styles are
    given here over the real numbers: the functions the doubles of the code
    approximate. *)
Module BinStyles.
Local Open Scope R_scope.

(** The three functions of a binning style (doc/5-extend.dox) and the
    domain on which the style may be used. *)
Record BinStyleR : Type := {
  mask : R → R;
  invmask : R → R;
  dmaskdx : R → R;
  domain : R → Prop
}.

(** Modelled from the spec: bin_linear.cc is missing; "Linear: mask =
    identity". *)
Definition BinLinear : BinStyleR :=
  {| mask := λ x, x; invmask := λ u, u; dmaskdx := λ _, 1;
     domain := λ _, True |}.

(** Modelled from the spec: bin_log.cc is missing; "Logarithmic: mask =
    log_b(x) for configured base b > 1; domain restricted to x > 0". *)
Definition BinLog (b : R) : BinStyleR :=
  {| mask := λ x, ln x / ln b;
     invmask := λ u, Rpower b u;
     dmaskdx := λ x, / (x * ln b);
     domain := λ x, 0 < x |}.

(** The variants of [BinStyle]. *)
Inductive variant : BinStyleR → Prop :=
| variant_linear : variant BinLinear
| variant_log (b : R) : 1 < b → variant (BinLog b).

End BinStyles.

(** ** Further notions for the histogram *)
Module HistogramNotions.
Import Histogram.
Local Open Scope Q_scope.

(** The product of the bin counts of the styles. *)
Definition bins_product (binstyles : list (option BinStyle)) : N :=
  fold_right
    (λ s acc, match s with Some bs => (nbins bs * acc)%N | None => acc end)
    1%N binstyles.

(** The exception the first loop of [bin_data] throws at a rejected axis
    [j]. *)
Definition rejection (binstyles : list (option BinStyle)) (j : nat) : hist_error :=
  match binstyles !! j with
  | Some (Some bs) => if (nbins bs =? 0)%N then NoBins else UnableToBin j
  | _ => NoBinStyle j
  end.

(** [f] does not decrease. *)
Definition nondecreasing (f : Q → Q) : Prop := ∀ a b, a <= b → f a <= f b.

(** Three tuples on one axis, and the histogram that holds them. *)
Definition three_values : list (list Q) := [[0.5]; [0.1]; [0.9]].

Definition three_values_histogram : Histogram :=
  {| haveBinned := false; ndim := 1; data := rev three_values;
     extremes := [(0.1, 0.9)]; bin_value := []; binned_data := [] |}.

Definition three_values_binned : Histogram :=
  Eval vm_compute in
    match bin_data three_values_histogram [Some (BinLinear 4)] with
    | Ok h => h
    | Err _ => three_values_histogram
    end.

End HistogramNotions.

(** ** Further notions for the simulator *)
Module SimulatorNotions.
Import Simulator.
Section WithModel.
Context {Engine Model : Type} `{!SimulateModelOps Engine Model}.

(** [setObservable] called for the observables [keys] on the columns [j],
    [j + 1], ... in turn; the first exception ends the calls. *)
Fixpoint bind_columns (s : Simulator) (j : nat) (keys : list ObservableIndex)
    : result sim_exception Simulator :=
  match keys with
  | [] => Ok s
  | key :: keys' =>
      rbind (setObservable s j key) (λ s', bind_columns s' (S j) keys')
  end.

End WithModel.
End SimulatorNotions.

(** ** The distributions of a conductance model (main-simulator.cc) *)
Module MainSimulator.
Section WithDistribution.

(** [shared_ptr<RandomDistribution>] *)
Context {Distribution : Type}.

(** The three models [set_distributions] makes, each with the
    distributions its constructor is given, in the order of the
    arguments. *)
Inductive ConductanceModel : Type :=
| SymmetricVoltageIndependentModel (dist_eps dist_gamma : Distribution)
| SymmetricVoltageOneSiteModel (dist_eps dist_gamma : Distribution)
| AsymmetricVoltageIndependentModel (dist_eps dist_gammaL dist_gammaR : Distribution).

(** The [invalid_argument] exceptions of [set_distributions]: a
    distribution "must be specified" (with the name as the message shows
    it), or the model is not recognized. *)
Inductive setup_error : Type :=
| MustBeSpecified (shown : string)
| UnrecognizedModel.

(** [parameters.at(name)] in a [try] whose handler throws
    [invalid_argument]. *)
Definition at_or_throw (parameters : gmap string Distribution)
    (name shown : string) : result setup_error Distribution :=
  match parameters !! name with
  | Some dist => Ok dist
  | None => Err (MustBeSpecified shown)
  end.

(** [shared_ptr<ConductanceModel> set_distributions(const string str,
    const map<string, shared_ptr<RandomDistribution>> &parameters)] *)
Definition set_distributions (str : string)
    (parameters : gmap string Distribution)
    : result setup_error ConductanceModel :=
  if String.eqb str "symmetricvoltageindependentmodel" then
    rbind (at_or_throw parameters "gamma" "gamma") (λ dist_gamma,
    rbind (at_or_throw parameters "epsilon" "epsilon") (λ dist_eps,
    Ok (SymmetricVoltageIndependentModel dist_eps dist_gamma)))
  else if String.eqb str "symmetricvoltageonesitemodel" then
    rbind (at_or_throw parameters "gamma" "gamma") (λ dist_gamma,
    rbind (at_or_throw parameters "epsilon" "epsilon") (λ dist_eps,
    Ok (SymmetricVoltageOneSiteModel dist_eps dist_gamma)))
  else if String.eqb str "asymmetricvoltageindependentmodel" then
    rbind (at_or_throw parameters "gammal" "gammaL") (λ dist_gammaL,
    rbind (at_or_throw parameters "gammar" "gammaR") (λ dist_gammaR,
    rbind (at_or_throw parameters "epsilon" "epsilon") (λ dist_eps,
    Ok (AsymmetricVoltageIndependentModel dist_eps dist_gammaL dist_gammaR))))
  else Err UnrecognizedModel.

(** *** Notions used to state the properties of [set_distributions] *)

(** The names a model looks up, in the order of the lookups. *)
Definition required (str : string) : option (list string) :=
  if String.eqb str "symmetricvoltageindependentmodel" then
    Some ["gamma"; "epsilon"]
  else if String.eqb str "symmetricvoltageonesitemodel" then
    Some ["gamma"; "epsilon"]
  else if String.eqb str "asymmetricvoltageindependentmodel" then
    Some ["gammal"; "gammar"; "epsilon"]
  else None.

(** The name as the message of the exception shows it. *)
Definition shown_as (name : string) : string :=
  if String.eqb name "gammal" then "gammaL"
  else if String.eqb name "gammar" then "gammaR"
  else name.

(** The distributions a model holds, under the names they were looked up
    with. *)
Definition holds (m : ConductanceModel) : list (string * Distribution) :=
  match m with
  | SymmetricVoltageIndependentModel e g => [("gamma", g); ("epsilon", e)]
  | SymmetricVoltageOneSiteModel e g => [("gamma", g); ("epsilon", e)]
  | AsymmetricVoltageIndependentModel e gl gr =>
      [("gammal", gl); ("gammar", gr); ("epsilon", e)]
  end.

End WithDistribution.
Arguments ConductanceModel Distribution : clear implicits.
End MainSimulator.

(** ** The voltage-independent model with symmetric coupling
    (aux_simulator/symmetric_voltage_independent.cc)

    The static conductance takes an arc tangent, which does not stay within
    the rationals: as for the binning styles, the functions are given over
    the real numbers the doubles of the code approximate.  A division by
    zero, which gives an infinity or a NaN in the code, is excluded by the
    hypotheses of the properties. *)
Module SymmetricVoltageIndependentModel.
Local Open Scope R_scope.

(** [static double transmission(const double E, const double eps,
    const double gamma)] *)
Definition transmission (E eps gamma : R) : R :=
  gamma * gamma / ((E - eps) * (E - eps) + gamma * gamma).

(** [static double static_conductance(const double EF, const double V,
    const double eta, const double eps, const double gamma)] *)
Definition static_conductance (EF V eta eps gamma : R) : R :=
  gamma / V
  * (atan ((EF - eps + eta * V) / gamma)
     - atan ((EF - eps + (eta - 1) * V) / gamma)).

(** [static double diff_conductance(const double EF, const double V,
    const double eta, const double eps, const double gamma)] *)
Definition diff_conductance (EF V eta eps gamma : R) : R :=
  eta * transmission (EF + eta * V) eps gamma +
  (1 - eta) * transmission (EF + (eta - 1) * V) eps gamma.

(** *** Notions used to state the properties *)

(** The current through the junction, in units of the conductance quantum:
    the voltage times the static conductance. *)
Definition current (EF V eta eps gamma : R) : R :=
  V * static_conductance EF V eta eps gamma.

End SymmetricVoltageIndependentModel.

(** ** The fit model for resonant tunnelling with symmetric coupling
    (aux_fitter/symmetric_resonant.cc)

    Over the real numbers, as above.  The indices [GAMMA] and [NORM] of the
    two fit parameters are constants of symmetric_resonant.h; the functions
    are given for any two indices. *)
Module SymmetricResonantFitModel.
Local Open Scope R_scope.
Section WithIndices.
Variables GAMMA NORM : nat.

(** [v[i]] on a [std::vector<double>]; out of range is undefined in the
    code and reads 0 here. *)
Definition at_ (v : list R) (i : nat) : R := default 0 (v !! i).

(** [double resid(const std::vector<double> &fitparam,
    const std::array<double, 1> &x, const double f) const], with [x] given
    by its one entry. *)
Definition resid (fitparam : list R) (x : R) (f : R) : R :=
  let g := x in
  let gamma := at_ fitparam GAMMA in
  let norm := at_ fitparam NORM in
  let model := norm / sqrt (g * g * g * (1 - g))
               * exp (-0.5 * gamma * gamma * (1 - g) / g) in
  (model - f) / f.

(** [std::vector<double> jacobian(const std::vector<double> &fitparam,
    const std::array<double, 1> &x, const double f) const] *)
Definition jacobian (fitparam : list R) (x : R) (f : R) : list R :=
  let g := x in
  let gamma := at_ fitparam GAMMA in
  let norm := at_ fitparam NORM in
  let ret := replicate 2 0 in
  let ret := <[GAMMA := - gamma * norm * sqrt ((1 - g) / g)
                        * exp (-0.5 * gamma * gamma * (1 - g) / g)
                        / (g * g)]> ret in
  let ret := <[GAMMA := at_ ret GAMMA / f]> ret in
  let ret := <[NORM := 1 / sqrt (g * g * g * (1 - g))
                       * exp (-0.5 * gamma * gamma * (1 - g) / g)]> ret in
  let ret := <[NORM := at_ ret NORM / f]> ret in
  ret.

(** [std::list<std::vector<double>> initial_guesses() const] *)
Definition initial_guesses : list (list R) := [].

End WithIndices.
End SymmetricResonantFitModel.

(** ** The fits from all the initial guesses (main-fitter.cc)

    The loop of [main] that runs the solver from every initial guess and
    keeps the best fit.  The GSL solver is an object of the library: its
    state is a type [Solver] and the calls made on it are functions on that
    state; the status codes [GSL_SUCCESS], [GSL_CONTINUE] and [GSL_ENOPROG]
    are the constants of gsl_errno.h.  Doubles are rationals, as for the
    histogram; what is printed is passes out. *)
Module MainFitter.
Import Histogram.
Local Open Scope Q_scope.
Section WithSolver.
Context {Solver : Type}.
Variables GSL_SUCCESS GSL_CONTINUE GSL_ENOPROG : Z.
(** [model->nfit] *)
Variable nfit : nat.
(** [gsl_multifit_fdfsolver_set(solver.get(), &fdf, vec.get())] *)
Variable fdfsolver_set : Solver → list Q → Solver.
(** [status = gsl_multifit_fdfsolver_iterate(solver.get())] *)
Variable fdfsolver_iterate : Solver → Z * Solver.
(** [gsl_multifit_test_delta(solver->dx, solver->x, 1.0e-4, 1.0e-4)] *)
Variable test_delta : Solver → Z.
(** [gsl_blas_dnrm2(solver->f)] *)
Variable dnrm2_f : Solver → Q.
(** [gsl_vector_get(solver->x, i)] *)
Variable solver_x : Solver → nat → Q.

(** The variables of [main] the loop works on. *)
Record Fit : Type := {
  solver : Solver;
  vec : list Q;
  hasfit : bool;
  bestresid : Q;
  bestfit : list Q
}.

(** [for(i = 0; i < model->nfit; ++i) gsl_vector_set(vec.get(), i, g[i]);]
    where [g] is the guess the iterator [initval] points to. *)
Definition load (vec : list Q) (initval : list Q) : list Q :=
  for_loop nfit (λ i vec, <[i := at_ initval i]> vec) vec.

(** [do { ++iter; status = iterate; if(status) break; status = test_delta; }
    while(status == GSL_CONTINUE && iter < 1000);] from the counter [iter];
    [passes] bounds the passes still to be made, 999 after the first from
    [iter = 0] being all the test [iter < 1000] allows. *)
Fixpoint do_while (passes iter : nat) (s : Solver) : Z * nat * Solver :=
  let iter := S iter in
  let '(status, s) := fdfsolver_iterate s in
  if negb (status =? 0)%Z then (status, iter, s)
  else
    let status := test_delta s in
    match passes with
    | S passes =>
        if (status =? GSL_CONTINUE)%Z && (iter <? 1000)%nat
        then do_while passes iter s
        else (status, iter, s)
    | O => (status, iter, s)
    end.

(** The solver run from one guess: the values loaded, the solver set, and
    [iter = 0; do ... while]. *)
Definition run (s : Solver) (vec initval : list Q) : Z * nat * Solver :=
  do_while 999 0 (fdfsolver_set s (load vec initval)).

(** [status != GSL_CONTINUE && status != GSL_SUCCESS &&
    status != GSL_ENOPROG] *)
Definition errored_out (status : Z) : bool :=
  negb (status =? GSL_CONTINUE)%Z && negb (status =? GSL_SUCCESS)%Z
  && negb (status =? GSL_ENOPROG)%Z.

(** The body of [for(initval = initvals.cbegin(); initval != initvals.cend();
    ++initval)]. *)
Definition try_guess (st : Fit) (initval : list Q) : Fit :=
  let v := load (vec st) initval in
  let '(status, _, s) := run (solver st) (vec st) initval in
  if errored_out status then
    {| solver := s; vec := v; hasfit := hasfit st;
       bestresid := bestresid st; bestfit := bestfit st |}
  else
    let resid := dnrm2_f s in
    if negb (hasfit st) || (if Qlt_le_dec resid (bestresid st) then true else false)
    then {| solver := s; vec := v; hasfit := true; bestresid := resid;
            bestfit := for_loop nfit (λ i bestfit, <[i := solver_x s i]> bestfit)
                         (bestfit st) |}
    else {| solver := s; vec := v; hasfit := hasfit st;
            bestresid := bestresid st; bestfit := bestfit st |}.

(** [hasfit = false; initvals = model->initial_guesses(); for(...) ...] *)
Definition fit_all (st : Fit) (initvals : list (list Q)) : Fit :=
  fold_left try_guess initvals
    {| solver := solver st; vec := vec st; hasfit := false;
       bestresid := bestresid st; bestfit := bestfit st |}.

(** *** Notions used to state the properties of the loop *)

(** The status and the solver at the end of the run from each guess, in the
    order of the guesses. *)
Fixpoint runs (s : Solver) (vec : list Q) (initvals : list (list Q))
    : list (Z * Solver) :=
  match initvals with
  | [] => []
  | initval :: initvals =>
      let '(status, _, s') := run s vec initval in
      (status, s') :: runs s' (load vec initval) initvals
  end.

(** One pass of the solver, its status dropped. *)
Definition pass (s : Solver) : Solver := snd (fdfsolver_iterate s).

End WithSolver.
End MainFitter.

(** ** The histogram on the doubles of the code (histogram.cc)

    The functions of histogram.cc once more, on binary64 doubles: the
    primitive floating-point numbers, with the IEEE 754 operations rounded
    to nearest, the infinities and NaN, every operation of the source being
    one operation on doubles (no wider intermediate format, no fused
    multiplication and addition).  They are used for what depends on a
    value that is not finite, on rounding or on an overflow.  Module
    [Histogram] above is the same code with finite doubles read as
    rationals; the exceptions and the product of [std::size_t] are shared
    with it. *)
Module HistogramDoubles.
Import Floats.

(** [std::numeric_limits<double>::max()] and [lowest()]. *)
Definition DBL_MAX : float := 0x1.fffffffffffffp+1023%float.
Definition DBL_LOWEST : float := (- DBL_MAX)%float.

(** [molstat::BinStyle], as in [Histogram.BinStyle]. *)
Record BinStyle : Type := {
  nbins : N;
  mask : float → float;
  invmask : float → float;
  dmaskdx : float → float
}.

(** Modelled from the spec: bin_linear.cc is missing; the linear style has
    the identity as mask. *)
Definition BinLinear (n : N) : BinStyle :=
  {| nbins := n; mask := λ x, x; invmask := λ u, u; dmaskdx := λ _, 1%float |}.

(** The data members of [molstat::Histogram]. *)
Record Histogram : Type := {
  haveBinned : bool;
  ndim : nat;
  data : list (list float);
  extremes : list (float * float);
  bin_value : list (list float);
  binned_data : list float
}.

(** [Histogram::Histogram(std::size_t ndim_)] *)
Definition new (ndim_ : nat) : Histogram :=
  {| haveBinned := false;
     ndim := ndim_;
     data := [];
     extremes := replicate ndim_ (DBL_MAX, DBL_LOWEST);
     bin_value := [];
     binned_data := [] |}.

(** [v[j]] and [extremes[j]]; the default is never read when the index is
    in range. *)
Definition at_ (v : list float) (j : nat) : float := nth j v 0%float.
Definition ext_at (ext : list (float * float)) (j : nat) : float * float :=
  nth j ext (0%float, 0%float).

(** Body of the loop of [add_data]: [if(v[j] < extremes[j][0]) ...] and
    [if(v[j] > extremes[j][1]) ...], with the comparisons of the doubles
    (false as soon as one side is NaN). *)
Definition check_limits (v : list float) (j : nat) (ext : list (float * float))
    : list (float * float) :=
  let ext1 :=
    if (at_ v j <? fst (ext_at ext j))%float
    then <[j := (at_ v j, snd (ext_at ext j))]> ext
    else ext in
  if (snd (ext_at ext1 j) <? at_ v j)%float
  then <[j := (fst (ext_at ext1 j), at_ v j)]> ext1
  else ext1.

(** [void Histogram::add_data(std::valarray<double> v)] *)
Definition add_data (h : Histogram) (v : list float)
    : result Histogram.hist_error Histogram :=
  if haveBinned h then Err Histogram.CannotAddAfterBinning
  else if negb (length v =? ndim h)%nat then Err Histogram.IncorrectDimensionality
  else Ok {| haveBinned := haveBinned h;
             ndim := ndim h;
             data := v :: data h;
             extremes := for_loop (ndim h) (check_limits v) (extremes h);
             bin_value := bin_value h;
             binned_data := binned_data h |}.

(** [std::size_t] converted to [double]: the nearest double, ties to
    even. *)
Definition of_size (n : N) : float :=
  SF2Prim (binary_normalize prec emax (Z.of_N n) 0 false).
Definition of_index (j : nat) : float := of_size (N.of_nat j).

(** Body of the first loop of [bin_data], with [==] on doubles. *)
Definition check_axis (ext : list (float * float))
    (binstyles : list (option BinStyle)) (j : nat) (total_bins : N)
    : result Histogram.hist_error N :=
  match binstyles !! j with
  | Some (Some bs) =>
      if (nbins bs =? 0)%N then Err Histogram.NoBins
      else if (fst (ext_at ext j) =? snd (ext_at ext j))%float
                && negb (nbins bs =? 1)%N
      then Err (Histogram.UnableToBin j)
      else Ok (Histogram.size_t_mul total_bins (nbins bs))
  | _ => Err (Histogram.NoBinStyle j)
  end.

(** [std::vector<double> Histogram::bin_values(dmin, dmax, dwidth, bstyle)] *)
Definition bin_values (dmin dmax dwidth : float) (bstyle : BinStyle)
    : list float :=
  for_loop (N.to_nat (nbins bstyle))
    (λ j ret,
       let lower := invmask bstyle (dmin + of_index j * dwidth)%float in
       let upper := invmask bstyle (dmin + of_index (j + 1) * dwidth)%float in
       <[j := (0.5 * (lower + upper))%float]> ret)
    (replicate (N.to_nat (nbins bstyle)) 0%float).

(** Body of the second loop of [bin_data]. *)
Definition set_bin_value (ext : list (float * float))
    (binstyles : list (option BinStyle)) (j : nat) (bv : list (list float))
    : list (list float) :=
  match binstyles !! j with
  | Some (Some bs) =>
      let b0 := mask bs (fst (ext_at ext j)) in
      let b1 := mask bs (snd (ext_at ext j)) in
      let b2 := ((b1 - b0) / of_size (nbins bs))%float in
      <[j := bin_values b0 b1 b2 bs]> bv
  | _ => bv (* not reached: the first loop found a style for every axis *)
  end.

(** [void Histogram::bin_data(const std::vector<std::shared_ptr<const
    BinStyle>> &binstyles)], which ends after the index bounds are set
    up. *)
Definition bin_data (h : Histogram) (binstyles : list (option BinStyle))
    : result Histogram.hist_error Histogram :=
  if haveBinned h then Err Histogram.AlreadyBinned
  else if negb (length binstyles =? ndim h)%nat
  then Err Histogram.IncorrectNumberOfStyles
  else
    rbind (for_loopM (ndim h) (check_axis (extremes h) binstyles) 1%N)
      (λ total_bins,
         Ok {| haveBinned := haveBinned h;
               ndim := ndim h;
               data := data h;
               extremes := extremes h;
               bin_value :=
                 for_loop (ndim h) (set_bin_value (extremes h) binstyles)
                   (resize (ndim h) [] (bin_value h));
               binned_data :=
                 resize (N.to_nat total_bins) 0%float (binned_data h) |}).

(** A style whose mask is not linear: u = -1/x. *)
Definition BinNegReciprocal (n : N) : BinStyle :=
  {| nbins := n; mask := λ x, (- (1 / x))%float;
     invmask := λ u, (- (1 / u))%float; dmaskdx := λ x, (1 / (x * x))%float |}.

(** *** Notions used to state the properties on doubles *)

(** Adding the tuples of a list, first to last. *)
Fixpoint add_all (h : Histogram) (vs : list (list float))
    : result Histogram.hist_error Histogram :=
  match vs with
  | [] => Ok h
  | v :: vs' => rbind (add_data h v) (λ h', add_all h' vs')
  end.

(** The values inserted on axis [j], in the order of the list. *)
Definition column (j : nat) (vs : list (list float)) : list float :=
  map (λ v, at_ v j) vs.

(** [m] is the minimum (maximum) of the doubles [xs]: it equals one of them
    and is at most (at least) each of them, in the comparisons of the
    doubles. *)
Definition is_minimum (m : float) (xs : list float) : Prop :=
  (∃ x, x ∈ xs ∧ (x =? m)%float = true) ∧ ∀ x, x ∈ xs → (m <=? x)%float = true.
Definition is_maximum (m : float) (xs : list float) : Prop :=
  (∃ x, x ∈ xs ∧ (x =? m)%float = true) ∧ ∀ x, x ∈ xs → (x <=? m)%float = true.

(** Two tuples, the histogram of two axes that holds them, and two linear
    styles. *)
Definition two_tuples : list (list float) := [[0.5; 1]; [0.25; 1.75]]%float.

Definition two_tuples_histogram : Histogram :=
  {| haveBinned := false; ndim := 2;
     data := [[0.25; 1.75]; [0.5; 1]]%float;
     extremes := [(0.25, 0.5); (1, 1.75)]%float;
     bin_value := []; binned_data := [] |}.

Definition two_styles : list (option BinStyle) :=
  [Some (BinLinear 2); Some (BinLinear 3)].

(** That histogram binned with the two styles. *)
Definition two_tuples_binned : Histogram :=
  Eval vm_compute in
    match bin_data two_tuples_histogram two_styles with
    | Ok h => h
    | Err _ => two_tuples_histogram
    end.

End HistogramDoubles.

(** * Properties *)

Section Loops.
Context {St : Type}.

Lemma for_loop_S (n : nat) (body : nat → St → St) (s : St) :
  for_loop (S n) body s = body n (for_loop n body s).
Proof. unfold for_loop. rewrite seq_S, fold_left_app. reflexivity. Qed.

Lemma for_loop_0 (body : nat → St → St) (s : St) : for_loop 0 body s = s.
Proof. reflexivity. Qed.
End Loops.

Module HistogramFacts.
Import Histogram.
Local Open Scope Q_scope.

Lemma ext_at_lookup (ext : list (Q * Q)) (j : nat) (e : Q * Q) :
  ext !! j = Some e → ext_at ext j = e.
Proof. intros H. unfold ext_at. by apply nth_lookup_Some. Qed.

(** Case analysis on the comparisons of doubles left in the goal. *)
Ltac compare_doubles :=
  repeat match goal with
         | |- context [Qlt_le_dec ?x ?y] => destruct (Qlt_le_dec x y)
         end;
  try done; try (exfalso; Lqa.lra).

(** One iteration of the loop of [add_data] rewrites entry [j] only. *)
Lemma check_limits_lookup (v : list Q) (j : nat) (ext : list (Q * Q)) (i : nat) :
  check_limits v j ext !! i =
  if decide (i = j) then widen (at_ v j) <$> ext !! j else ext !! i.
Proof.
  unfold check_limits.
  destruct (ext !! j) as [[mn mx]|] eqn:Hj.
  - assert (Hlt : (j < length ext)%nat) by (eapply lookup_lt_Some; eauto).
    rewrite (ext_at_lookup _ _ _ Hj). cbn [fst snd fmap option_fmap option_map].
    destruct (Qlt_le_dec (at_ v j) mn) as [H1|H1].
    + rewrite (ext_at_lookup (<[j:=(at_ v j, mx)]> ext) j (at_ v j, mx))
        by (by apply list_lookup_insert_eq).
      cbn [fst snd]. unfold widen. cbn [fst snd].
      destruct (Qlt_le_dec mx (at_ v j)) as [H2|H2];
        rewrite ?list_insert_insert_eq;
        (destruct (decide (i = j)) as [->|Hne];
         [rewrite list_lookup_insert_eq by done
         |rewrite list_lookup_insert_ne by done]);
        compare_doubles.
    + rewrite (ext_at_lookup _ _ _ Hj). unfold widen. cbn [fst snd].
      destruct (Qlt_le_dec mx (at_ v j)) as [H2|H2];
        (destruct (decide (i = j)) as [->|Hne];
         [rewrite ?list_lookup_insert_eq, ?Hj by done
         |rewrite ?list_lookup_insert_ne by done]);
        compare_doubles.
  - assert (Hge : (length ext ≤ j)%nat) by (by apply lookup_ge_None_1).
    rewrite !(list_insert_ge ext j) by done.
    repeat (destruct (Qlt_le_dec _ _); rewrite ?(list_insert_ge ext j) by done);
      destruct (decide (i = j)) as [->|]; by rewrite ?Hj.
Qed.

(** The loop of [add_data] widens the first [n] pairs by the coordinates of
    [v] and leaves the others. *)
Lemma check_limits_loop (v : list Q) (n : nat) (ext : list (Q * Q)) (i : nat) :
  for_loop n (check_limits v) ext !! i =
  if decide (i < n)%nat then widen (at_ v i) <$> ext !! i else ext !! i.
Proof.
  induction n as [|n IH].
  - rewrite for_loop_0. by destruct (decide _); [lia|].
  - rewrite for_loop_S, check_limits_lookup.
    destruct (decide (i = n)) as [->|Hne].
    + rewrite IH. destruct (decide (n < n)%nat); [lia|].
      destruct (decide (n < S n)%nat); [done|lia].
    + rewrite IH.
      destruct (decide (i < n)%nat), (decide (i < S n)%nat); done || lia.
Qed.

(** What a successful [add_data] changes. *)
Lemma add_data_Ok (h h' : Histogram) (v : list Q) :
  add_data h v = Ok h' →
  haveBinned h = false ∧ length v = ndim h ∧
  haveBinned h' = false ∧ ndim h' = ndim h ∧ data h' = v :: data h ∧
  bin_value h' = bin_value h ∧ binned_data h' = binned_data h ∧
  ∀ j, extremes h' !! j =
       if decide (j < ndim h)%nat then widen (at_ v j) <$> extremes h !! j
       else extremes h !! j.
Proof.
  unfold add_data. destruct (haveBinned h) eqn:Hb; [done|].
  destruct (length v =? ndim h)%nat eqn:Hlen; [|done].
  apply Nat.eqb_eq in Hlen. cbn [negb]. intros [= <-]. cbn.
  repeat split; try done. intros j. apply check_limits_loop.
Qed.

(** [add_data] succeeds exactly on an unbinned histogram and a tuple of its
    dimensionality. *)
Lemma add_data_succeeds (h : Histogram) (v : list Q) :
  haveBinned h = false → length v = ndim h → is_Ok (add_data h v).
Proof.
  intros Hb Hlen. unfold add_data. rewrite Hb.
  apply Nat.eqb_eq in Hlen. rewrite Hlen. cbn [negb]. by eexists.
Qed.

Lemma widen_all_snoc (xs : list Q) (x : Q) (e : Q * Q) :
  widen_all (xs ++ [x]) e = widen x (widen_all xs e).
Proof. unfold widen_all. by rewrite fold_left_app. Qed.

(** What a successful sequence of [add_data] calls changes. *)
Lemma add_all_Ok (vs : list (list Q)) (h h' : Histogram) :
  add_all h vs = Ok h' →
  haveBinned h = false →
  Forall (λ v, length v = ndim h) vs ∧
  haveBinned h' = false ∧ ndim h' = ndim h ∧ data h' = rev vs ++ data h ∧
  bin_value h' = bin_value h ∧ binned_data h' = binned_data h ∧
  ∀ j, (j < ndim h)%nat →
       extremes h' !! j = widen_all (column j vs) <$> extremes h !! j.
Proof.
  revert h. induction vs as [|v vs IH]; intros h.
  - cbn. intros [= <-] Hb. repeat split; try done.
    intros j _. by destruct (extremes h !! j).
  - cbn [add_all]. destruct (add_data h v) as [h1|e] eqn:Hadd; [|done].
    cbn [rbind]. intros Hall Hb.
    apply add_data_Ok in Hadd as (_ & Hlen & Hb1 & Hn1 & Hd1 & Hbv1 & Hbd1 & Hext1).
    destruct (IH h1 Hall Hb1) as (Hlens & Hb' & Hn' & Hd' & Hbv' & Hbd' & Hext').
    rewrite Hn1 in *. repeat split; try congruence.
    + constructor; [done|]. done.
    + rewrite Hd', Hd1. cbn [rev]. by rewrite <- app_assoc.
    + intros j Hj. rewrite (Hext' j Hj), (Hext1 j).
      destruct (decide (j < ndim h)%nat); [|lia].
      destruct (extremes h !! j); done.
Qed.

(** A sequence of tuples of the right dimensionality is accepted. *)
Lemma add_all_succeeds (vs : list (list Q)) (h : Histogram) :
  haveBinned h = false → Forall (λ v, length v = ndim h) vs →
  is_Ok (add_all h vs).
Proof.
  revert h. induction vs as [|v vs IH]; intros h Hb Hall.
  - by eexists.
  - inversion Hall as [|? ? Hv Hvs]; subst.
    destruct (add_data_succeeds h v Hb Hv) as [h1 Hadd].
    cbn [add_all]. rewrite Hadd. cbn [rbind].
    apply add_data_Ok in Hadd as (_ & _ & Hb1 & Hn1 & _).
    apply IH; [done|]. by rewrite Hn1.
Qed.

(** The first component of the running pair: below the start value and all
    values seen, and one of them. *)
Lemma widen_all_min (xs : list Q) (e : Q * Q) :
  fst (widen_all xs e) <= fst e ∧
  (∀ x, x ∈ xs → fst (widen_all xs e) <= x) ∧
  (fst (widen_all xs e) = fst e ∨ fst (widen_all xs e) ∈ xs).
Proof.
  induction xs as [|x xs IH] using rev_ind.
  - cbn. split; [Lqa.lra|]. split; [|by left]. intros x Hx. by apply elem_of_nil in Hx.
  - rewrite widen_all_snoc. destruct IH as (IH1 & IH2 & IH3).
    unfold widen. cbn [fst].
    destruct (Qlt_le_dec x (fst (widen_all xs e))) as [Hlt|Hle].
    + split; [Lqa.lra|]. split.
      * intros y [Hy|Hy%list_elem_of_singleton]%elem_of_app.
        -- specialize (IH2 y Hy). Lqa.lra.
        -- subst. Lqa.lra.
      * right. apply elem_of_app. right. by apply list_elem_of_singleton.
    + split; [done|]. split.
      * intros y [Hy|Hy%list_elem_of_singleton]%elem_of_app; [by apply IH2|by subst].
      * destruct IH3 as [->|Hin]; [by left|]. right. apply elem_of_app. by left.
Qed.

(** The second component of the running pair, symmetrically. *)
Lemma widen_all_max (xs : list Q) (e : Q * Q) :
  snd e <= snd (widen_all xs e) ∧
  (∀ x, x ∈ xs → x <= snd (widen_all xs e)) ∧
  (snd (widen_all xs e) = snd e ∨ snd (widen_all xs e) ∈ xs).
Proof.
  induction xs as [|x xs IH] using rev_ind.
  - cbn. split; [Lqa.lra|]. split; [|by left]. intros x Hx. by apply elem_of_nil in Hx.
  - rewrite widen_all_snoc. destruct IH as (IH1 & IH2 & IH3).
    unfold widen. cbn [snd].
    destruct (Qlt_le_dec (snd (widen_all xs e)) x) as [Hlt|Hle].
    + split; [Lqa.lra|]. split.
      * intros y [Hy|Hy%list_elem_of_singleton]%elem_of_app.
        -- specialize (IH2 y Hy). Lqa.lra.
        -- subst. Lqa.lra.
      * right. apply elem_of_app. right. by apply list_elem_of_singleton.
    + split; [done|]. split.
      * intros y [Hy|Hy%list_elem_of_singleton]%elem_of_app; [by apply IH2|by subst].
      * destruct IH3 as [->|Hin]; [by left|]. right. apply elem_of_app. by left.
Qed.

(** From the initial pair ([DBL_MAX], lowest double), the running pair of a
    non-empty list of finite doubles is its (minimum, maximum). *)
Lemma widen_all_initial (xs : list Q) :
  xs ≠ [] → Forall finite xs →
  is_minimum (fst (widen_all xs (DBL_MAX, DBL_LOWEST))) xs ∧
  is_maximum (snd (widen_all xs (DBL_MAX, DBL_LOWEST))) xs.
Proof.
  intros Hne Hfin. rewrite Forall_forall in Hfin.
  destruct xs as [|x0 xs0] eqn:Hxs; [done|]. rewrite <- Hxs in *.
  assert (Hx0 : x0 ∈ xs) by (rewrite Hxs; apply elem_of_cons; by left).
  destruct (widen_all_min xs (DBL_MAX, DBL_LOWEST)) as (Hm1 & Hm2 & Hm3).
  destruct (widen_all_max xs (DBL_MAX, DBL_LOWEST)) as (HM1 & HM2 & HM3).
  cbn [fst snd] in *. split; (split; [|done]).
  - destruct Hm3 as [Heq|Hin]; [|by exists (fst (widen_all xs (DBL_MAX, DBL_LOWEST)))].
    exists x0. split; [done|]. rewrite Heq in *.
    specialize (Hm2 x0 Hx0). destruct (Hfin x0 Hx0) as [_ Hle]. Lqa.lra.
  - destruct HM3 as [Heq|Hin]; [|by exists (snd (widen_all xs (DBL_MAX, DBL_LOWEST)))].
    exists x0. split; [done|]. rewrite Heq in *.
    specialize (HM2 x0 Hx0). destruct (Hfin x0 Hx0) as [Hge _]. Lqa.lra.
Qed.

Lemma at_elem_of (v : list Q) (j : nat) : (j < length v)%nat → at_ v j ∈ v.
Proof.
  intros Hj. destruct (lookup_lt_is_Some_2 v j Hj) as [x Hx].
  unfold at_. rewrite (nth_lookup_Some _ _ 0 _ Hx).
  apply list_elem_of_lookup. eauto.
Qed.

Lemma column_finite (n j : nat) (vs : list (list Q)) :
  (j < n)%nat → Forall (λ v, length v = n) vs → Forall (Forall finite) vs →
  Forall finite (column j vs).
Proof.
  intros Hj Hlen Hfin. unfold column. apply Forall_forall.
  intros x (v & -> & Hv)%list_elem_of_fmap.
  rewrite Forall_forall in Hlen, Hfin.
  specialize (Hlen v Hv). specialize (Hfin v Hv).
  rewrite Forall_forall in Hfin. apply Hfin, at_elem_of. lia.
Qed.

(** The pair stored for axis [j] after the tuples [vs] were added to a new
    histogram. *)
Lemma add_all_extremes (n : nat) (vs : list (list Q)) (h : Histogram) (j : nat) :
  add_all (new n) vs = Ok h → Forall (Forall finite) vs → (j < n)%nat →
  ∃ mn mx, extremes h !! j = Some (mn, mx) ∧
    (vs ≠ [] → is_minimum mn (column j vs) ∧ is_maximum mx (column j vs)).
Proof.
  intros Hadd Hfin Hj.
  destruct (add_all_Ok vs (new n) h Hadd eq_refl)
    as (Hlen & Hb & _ & _ & _ & _ & Hext).
  cbn [ndim new] in Hlen, Hext.
  specialize (Hext j Hj). cbn [extremes new] in Hext.
  assert (Hinit : replicate n (DBL_MAX, DBL_LOWEST) !! j
                  = Some (DBL_MAX, DBL_LOWEST)) by (by apply lookup_replicate).
  rewrite Hinit in Hext. cbn in Hext.
  destruct (widen_all (column j vs) (DBL_MAX, DBL_LOWEST)) as [mn mx] eqn:Hw.
  exists mn, mx. split; [done|]. intros Hne.
  assert (Hcol : column j vs ≠ []) by (destruct vs; [done|discriminate]).
  pose proof (widen_all_initial (column j vs) Hcol
                (column_finite n j vs Hj Hlen Hfin)) as Hmin.
  by rewrite Hw in Hmin.
Qed.

(** C10.  A new histogram holds the pair ([DBL_MAX], lowest double) for
    every axis.  After any sequence [vs] of successful [add_data] calls on a
    new histogram of [n] axes, the inserted values being finite doubles, and
    before binning, the pair stored for each axis [j] is (minimum, maximum)
    of the values inserted on axis [j]; in particular after the first call,
    with tuple [v], both ends of every axis are [v[j]].  What an infinity or
    NaN among the values does is shown in module [HistogramDoublesFacts]. *)
Theorem C10_extremes_are_min_and_max
    (n : nat) (vs : list (list Q)) (h : Histogram) :
  add_all (new n) vs = Ok h →
  Forall (Forall finite) vs →
  extremes (new n) = replicate n (DBL_MAX, DBL_LOWEST) ∧
  haveBinned h = false ∧
  (vs = [] → extremes h = replicate n (DBL_MAX, DBL_LOWEST)) ∧
  ∀ j, (j < n)%nat →
    ∃ mn mx, extremes h !! j = Some (mn, mx) ∧
      (vs ≠ [] → is_minimum mn (column j vs) ∧ is_maximum mx (column j vs)) ∧
      (∀ v, vs = [v] → mn == at_ v j ∧ mx == at_ v j).
Proof.
  intros Hadd Hfin.
  destruct (add_all_Ok vs (new n) h Hadd eq_refl) as (_ & Hb & _).
  split; [done|]. split; [done|]. split.
  { intros ->. cbn in Hadd. by injection Hadd as <-. }
  intros j Hj.
  destruct (add_all_extremes n vs h j Hadd Hfin Hj) as (mn & mx & Hlk & Hmm).
  exists mn, mx. split; [done|]. split; [done|]. intros v ->.
  destruct Hmm as [[(x & Hx & Hxm) _] [(y & Hy & Hym) _]]; [done|].
  cbn in Hx, Hy. apply list_elem_of_singleton in Hx, Hy. subst x y.
  split; by symmetry.
Qed.

Lemma finite_two_tuples : Forall (Forall finite) two_tuples.
Proof. repeat constructor; vm_compute; discriminate. Qed.

Lemma C10_extremes_are_min_and_max_witness :
  add_all (new 2) two_tuples = Ok two_tuples_histogram ∧
  Forall (Forall finite) two_tuples ∧
  ∀ j, (j < 2)%nat →
    ∃ mn mx, extremes two_tuples_histogram !! j = Some (mn, mx) ∧
      (two_tuples ≠ [] →
       is_minimum mn (column j two_tuples) ∧ is_maximum mx (column j two_tuples)) ∧
      (∀ v, two_tuples = [v] → mn == at_ v j ∧ mx == at_ v j).
Proof.
  split; [vm_compute; reflexivity|]. split; [exact finite_two_tuples|].
  apply (C10_extremes_are_min_and_max 2 two_tuples two_tuples_histogram).
  - vm_compute; reflexivity.
  - exact finite_two_tuples.
Defined.

(** *** Binning *)

Lemma for_loop_insert_length {A} (f : nat → A) (n : nat) (l : list A) :
  length (for_loop n (λ j ret, <[j := f j]> ret) l) = length l.
Proof.
  induction n as [|n IH]; [done|]. by rewrite for_loop_S, length_insert.
Qed.

(** A loop that assigns [ret[j] = f j] for [j < n]. *)
Lemma for_loop_insert_lookup {A} (f : nat → A) (n : nat) (l : list A) (i : nat) :
  (i < n)%nat → (i < length l)%nat →
  for_loop n (λ j ret, <[j := f j]> ret) l !! i = Some (f i).
Proof.
  intros Hn Hl. induction n as [|n IH]; [lia|].
  rewrite for_loop_S. destruct (decide (i = n)) as [->|Hne].
  - apply list_lookup_insert_eq. by rewrite for_loop_insert_length.
  - rewrite list_lookup_insert_ne by done. apply IH. lia.
Qed.

(** The value [bin_values] stores for bin [i]. *)
Lemma bin_values_lookup (dmin dmax dwidth : Q) (bs : BinStyle) (i : nat) :
  (i < N.to_nat (nbins bs))%nat →
  bin_values dmin dmax dwidth bs !! i =
  Some (0.5 * (invmask bs (dmin + of_index i * dwidth)
               + invmask bs (dmin + of_index (i + 1) * dwidth))).
Proof.
  intros Hi. unfold bin_values.
  rewrite (for_loop_insert_lookup
             (λ j, 0.5 * (invmask bs (dmin + of_index j * dwidth)
                          + invmask bs (dmin + of_index (j + 1) * dwidth))));
    [done|done|by rewrite length_replicate].
Qed.

Lemma bin_values_length (dmin dmax dwidth : Q) (bs : BinStyle) :
  length (bin_values dmin dmax dwidth bs) = N.to_nat (nbins bs).
Proof. unfold bin_values. by rewrite for_loop_insert_length, length_replicate. Qed.

Lemma set_bin_value_length ext binstyles (n : nat) (bv : list (list Q)) :
  length (for_loop n (set_bin_value ext binstyles) bv) = length bv.
Proof.
  induction n as [|n IH]; [done|]. rewrite for_loop_S. unfold set_bin_value at 1.
  destruct (binstyles !! n) as [[bs|]|]; by rewrite ?length_insert.
Qed.

(** The second loop of [bin_data] stores the bin values of every axis that
    has a style. *)
Lemma set_bin_value_loop ext binstyles (n : nat) (bv : list (list Q))
    (j : nat) (bs : BinStyle) :
  (j < n)%nat → (j < length bv)%nat → binstyles !! j = Some (Some bs) →
  for_loop n (set_bin_value ext binstyles) bv !! j =
  Some (bin_values (mask bs (fst (ext_at ext j))) (mask bs (snd (ext_at ext j)))
          ((mask bs (snd (ext_at ext j)) - mask bs (fst (ext_at ext j)))
           / of_size (nbins bs)) bs).
Proof.
  intros Hn Hl Hbs. induction n as [|n IH]; [lia|].
  rewrite for_loop_S. unfold set_bin_value at 1.
  destruct (decide (j = n)) as [->|Hne].
  - rewrite Hbs. apply list_lookup_insert_eq. by rewrite set_bin_value_length.
  - destruct (binstyles !! n) as [[bs'|]|];
      rewrite ?list_lookup_insert_ne by done; apply IH; lia.
Qed.

Lemma check_axis_Ok ext binstyles (j : nat) (t : N) :
  axis_accepted ext binstyles j → is_Ok (check_axis ext binstyles j t).
Proof.
  intros (bs & Hbs & Hn0 & Hspan). unfold check_axis. rewrite Hbs.
  destruct (N.eqb_spec (nbins bs) 0); [done|].
  destruct (Qeq_bool _ _) eqn:Heq; cbn [andb]; [|by eexists].
  apply Qeq_bool_iff in Heq.
  destruct (N.eqb_spec (nbins bs) 1); cbn [negb]; [by eexists|].
  by destruct Hspan.
Qed.

Lemma check_axis_Err ext binstyles (j : nat) (t : N) :
  ¬ axis_accepted ext binstyles j → is_Err (check_axis ext binstyles j t).
Proof.
  intros Hno. unfold check_axis.
  destruct (binstyles !! j) as [[bs|]|] eqn:Hbs; try by eexists.
  destruct (N.eqb_spec (nbins bs) 0); [by eexists|].
  destruct (Qeq_bool _ _) eqn:Heq; cbn [andb].
  - apply Qeq_bool_iff in Heq.
    destruct (N.eqb_spec (nbins bs) 1); cbn [negb]; [|by eexists].
    destruct Hno. exists bs. repeat split; try done. by intros [_ ?].
  - destruct Hno. exists bs. repeat split; try done.
    intros [Heq' _]. apply Qeq_bool_iff in Heq'. congruence.
Qed.

Lemma check_loop_Ok ext binstyles (n start : nat) (t : N) :
  (∀ j, (start ≤ j < start + n)%nat → axis_accepted ext binstyles j) →
  is_Ok (for_loop_from start n (check_axis ext binstyles) t).
Proof.
  revert start t. induction n as [|n IH]; intros start t Hall; [by eexists|].
  cbn [for_loop_from].
  destruct (check_axis_Ok ext binstyles start t) as [t' Ht']; [apply Hall; lia|].
  rewrite Ht'. cbn [rbind]. apply IH. intros j Hj. apply Hall. lia.
Qed.

Lemma check_loop_Err ext binstyles (n start : nat) (t : N) (j : nat) :
  (start ≤ j < start + n)%nat → ¬ axis_accepted ext binstyles j →
  is_Err (for_loop_from start n (check_axis ext binstyles) t).
Proof.
  revert start t. induction n as [|n IH]; intros start t Hj Hno; [lia|].
  cbn [for_loop_from].
  destruct (check_axis ext binstyles start t) as [t'|e] eqn:Hc; [|by eexists].
  cbn [rbind]. destruct (decide (j = start)) as [->|Hne].
  - destruct (check_axis_Err ext binstyles start t Hno) as [e He]. congruence.
  - apply IH; [lia|done].
Qed.

(** Rejection, as stated on the histogram, is the failure of the checks of
    the loop. *)
Lemma axis_rejected_iff (h : Histogram) binstyles (j : nat) :
  axis_rejected h binstyles j ↔ ¬ axis_accepted (extremes h) binstyles j.
Proof.
  unfold axis_rejected, axis_accepted, zero_span.
  destruct (binstyles !! j) as [[bs|]|] eqn:Hbs.
  - split.
    + intros [H0|[H1 Hz]] (bs' & [= <-] & Hn0 & Hspan); [done|].
      apply Hspan. split; [done|lia].
    + intros Hno. destruct (decide (nbins bs = 0%N)) as [|Hn0]; [by left|].
      right. destruct (decide (nbins bs = 1%N)) as [H1|H1].
      * destruct Hno. exists bs. repeat split; try done. by intros [_ ?].
      * split; [lia|].
        destruct (Qeq_dec (fst (ext_at (extremes h) j))
                          (snd (ext_at (extremes h) j))) as [|Hne]; [done|].
        destruct Hno. exists bs. repeat split; try done. by intros [? _].
  - split; [|done]. by intros _ (bs' & [=] & _).
  - split; [|done]. by intros _ (bs' & [=] & _).
Qed.

Lemma axis_accepted_or_rejected (h : Histogram) binstyles (j : nat) :
  axis_accepted (extremes h) binstyles j ∨ axis_rejected h binstyles j.
Proof.
  unfold axis_rejected, axis_accepted, zero_span.
  destruct (binstyles !! j) as [[bs|]|] eqn:Hbs; [|by right..].
  destruct (decide (nbins bs = 0%N)) as [|Hn0]; [right; by left|].
  destruct (decide (nbins bs = 1%N)) as [H1|H1].
  { left. exists bs. repeat split; try done. by intros [_ ?]. }
  destruct (Qeq_dec (fst (ext_at (extremes h) j))
                    (snd (ext_at (extremes h) j))) as [Heq|Hne].
  - right. right. split; [lia|done].
  - left. exists bs. repeat split; try done. by intros [? _].
Qed.

(** What a successful [bin_data] changes. *)
Lemma bin_data_Ok (h h' : Histogram) binstyles :
  bin_data h binstyles = Ok h' →
  haveBinned h = false ∧ length binstyles = ndim h ∧
  haveBinned h' = haveBinned h ∧ ndim h' = ndim h ∧ data h' = data h ∧
  extremes h' = extremes h ∧
  bin_value h' = for_loop (ndim h) (set_bin_value (extremes h) binstyles)
                   (resize (ndim h) [] (bin_value h)) ∧
  ∃ total_bins,
    for_loopM (ndim h) (check_axis (extremes h) binstyles) 1%N = Ok total_bins ∧
    binned_data h' = resize (N.to_nat total_bins) 0 (binned_data h).
Proof.
  unfold bin_data. destruct (haveBinned h) eqn:Hb; [done|].
  destruct (length binstyles =? ndim h)%nat eqn:Hlen; [|done].
  apply Nat.eqb_eq in Hlen. cbn [negb].
  destruct (for_loopM _ _ _) as [t|e]; [|done]. cbn [rbind].
  intros [= <-]. cbn. repeat split; try done. by exists t.
Qed.

(** Once a tuple has been added, an axis has zero span exactly when all the
    values observed on it are equal. *)
Lemma zero_span_all_equal (n : nat) (vs : list (list Q)) (h : Histogram) (j : nat) :
  add_all (new n) vs = Ok h → Forall (Forall finite) vs → vs ≠ [] → (j < n)%nat →
  zero_span h j ↔ ∀ x y, x ∈ column j vs → y ∈ column j vs → x == y.
Proof.
  intros Hadd Hfin Hne Hj.
  destruct (add_all_extremes n vs h j Hadd Hfin Hj) as (mn & mx & Hlk & Hmm).
  destruct (Hmm Hne) as [[(x0 & Hx0 & Hx0m) Hlow] [(y0 & Hy0 & Hy0m) Hup]].
  unfold zero_span. rewrite (ext_at_lookup _ _ _ Hlk). cbn [fst snd]. split.
  - intros Heq x y Hx Hy.
    pose proof (Hlow x Hx). pose proof (Hup x Hx).
    pose proof (Hlow y Hy). pose proof (Hup y Hy). Lqa.lra.
  - intros Hall. rewrite <- Hx0m, <- Hy0m. by apply Hall.
Qed.

(** The checks of [bin_data] as they read the stored pair: on a histogram
    that has not been binned, [bin_data] throws whenever some axis has no
    bin style bound, or a style with 0 bins, or a style with more than 1 bin
    while the two ends stored for the axis are equal; when the list of styles
    has the dimensionality of the histogram and no axis is in one of these
    cases, the checks pass and [bin_data] returns. *)
Lemma bin_data_validation_stored
    (h : Histogram) (binstyles : list (option BinStyle)) :
  haveBinned h = false →
  ((∃ j, (j < ndim h)%nat ∧ axis_rejected h binstyles j) →
   is_Err (bin_data h binstyles)) ∧
  (length binstyles = ndim h →
   (∀ j, (j < ndim h)%nat → ¬ axis_rejected h binstyles j) →
   is_Ok (bin_data h binstyles)).
Proof.
  intros Hb. unfold bin_data. rewrite Hb. split.
  - intros (j & Hj & Hrej).
    destruct (length binstyles =? ndim h)%nat; cbn [negb]; [|by eexists].
    destruct (check_loop_Err (extremes h) binstyles (ndim h) 0 1 j) as [e He];
      [lia|by apply axis_rejected_iff|].
    unfold for_loopM. rewrite He. by eexists.
  - intros Hlen Hall. apply Nat.eqb_eq in Hlen. rewrite Hlen. cbn [negb].
    destruct (check_loop_Ok (extremes h) binstyles (ndim h) 0 1) as [t Ht].
    { intros j Hj.
      destruct (axis_accepted_or_rejected h binstyles j) as [|Hrej]; [done|].
      destruct (Hall j); [lia|done]. }
    unfold for_loopM. rewrite Ht. by eexists.
Qed.

(** Once a tuple of finite values was added, an axis is rejected on its
    stored pair exactly when it is rejected on the values observed. *)
Lemma axis_rejected_observed (n : nat) (vs : list (list Q)) (h : Histogram)
    binstyles (j : nat) :
  add_all (new n) vs = Ok h → Forall (Forall finite) vs → vs ≠ [] → (j < n)%nat →
  axis_rejected h binstyles j ↔ observed_rejected vs binstyles j.
Proof.
  intros Hadd Hfin Hne Hj. unfold axis_rejected, observed_rejected.
  destruct (binstyles !! j) as [[bs|]|]; [|done..].
  by rewrite (zero_span_all_equal n vs h j Hadd Hfin Hne Hj).
Qed.

(** An axis rejected on its stored pair is rejected on the values observed,
    also when no tuple was added. *)
Lemma axis_rejected_is_observed (n : nat) (vs : list (list Q)) (h : Histogram)
    binstyles (j : nat) :
  add_all (new n) vs = Ok h → Forall (Forall finite) vs → (j < n)%nat →
  axis_rejected h binstyles j → observed_rejected vs binstyles j.
Proof.
  intros Hadd Hfin Hj. destruct vs as [|v vs'].
  - unfold axis_rejected, observed_rejected.
    destruct (binstyles !! j) as [[bs|]|]; [|done..].
    intros [H0|[H1 _]]; [by left|right]. split; [done|].
    intros x y []%elem_of_nil.
  - by apply (axis_rejected_observed n (v :: vs') h binstyles j Hadd Hfin).
Qed.



(** An axis on which one value was observed twice cannot get two bins, and
    can get one. *)
Example bin_data_zero_span :
  ∃ h, add_all (new 1) [[0.5]; [0.5]] = Ok h ∧
       bin_data h [Some (BinLinear 2)] = Err (UnableToBin 0) ∧
       is_Ok (bin_data h [Some (BinLinear 1)]).
Proof. eexists. split; [reflexivity|]. split; [reflexivity|]. by eexists. Qed.

(** The coordinate of a bin in exact arithmetic, rounding and overflow left
    out: after [bin_data], the coordinate of bin [i] of axis [j], whose style
    [bs] has [nbins bs] bins and whose stored minimum and maximum are [mn]
    and [mx], is (invmask(l) + invmask(u)) / 2 with l = mask(mn) + i * w,
    u = mask(mn) + (i+1) * w and w = (mask(mx) - mask(mn)) / nbins.  The
    equation on the doubles of the code is proved in module
    [HistogramDoublesFacts]. *)
Lemma bin_coordinate_exact
    (h h' : Histogram) (binstyles : list (option BinStyle))
    (j : nat) (bs : BinStyle) (mn mx : Q) (i : nat) :
  bin_data h binstyles = Ok h' →
  binstyles !! j = Some (Some bs) →
  extremes h !! j = Some (mn, mx) →
  (i < N.to_nat (nbins bs))%nat →
  let w := (mask bs mx - mask bs mn) / of_size (nbins bs) in
  let l := mask bs mn + of_index i * w in
  let u := mask bs mn + of_index (i + 1) * w in
  ∃ row c, bin_value h' !! j = Some row ∧ row !! i = Some c ∧
           length row = N.to_nat (nbins bs) ∧
           c == (invmask bs l + invmask bs u) / 2.
Proof.
  intros Hbin Hbs Hext Hi w l u.
  apply bin_data_Ok in Hbin as (_ & Hlen & _ & _ & _ & _ & Hbv & _).
  assert (Hj : (j < ndim h)%nat).
  { rewrite <- Hlen. eapply lookup_lt_Some; eauto. }
  eexists _, _. split; [|split; [|split]].
  - rewrite Hbv. apply (set_bin_value_loop _ _ _ _ j bs); [done| |done].
    by rewrite length_resize.
  - rewrite (ext_at_lookup _ _ _ Hext). cbn [fst snd].
    by apply bin_values_lookup.
  - apply bin_values_length.
  - subst w l u. cbv zeta. field.
Qed.

(** With a mask that is not linear the coordinate is not the centre of an
    equal share of the raw interval: on [[1, 2]] with two bins under
    u = -1/x the coordinates are 7/6 and 5/3, not 5/4 and 7/4. *)
Example masked_bins_are_not_raw_centres :
  ∃ h h', add_all (new 1) [[1]; [2]] = Ok h ∧
          bin_data h [Some (BinNegReciprocal 2)] = Ok h' ∧
          Forall2 (Forall2 Qeq) (bin_value h') [[7 # 6; 5 # 3]].
Proof.
  eexists _, _. split; [reflexivity|]. split; [reflexivity|].
  repeat constructor; reflexivity.
Qed.

(** *** The unfinished binning *)

(** The two guards on [haveBinned] are in place. *)
Lemma guards_on_haveBinned (h : Histogram) (v : list Q) binstyles :
  haveBinned h = true →
  add_data h v = Err CannotAddAfterBinning ∧
  bin_data h binstyles = Err AlreadyBinned.
Proof. intros Hb. unfold add_data, bin_data. by rewrite Hb. Qed.

(** [bin_data] returns with the flag as it found it, so that the histogram
    it returns accepts further tuples and a further binning. *)
Lemma bin_data_leaves_flag (h h' : Histogram) binstyles :
  bin_data h binstyles = Ok h' →
  haveBinned h' = false ∧
  (∀ v, length v = ndim h' → is_Ok (add_data h' v)) ∧
  is_Ok (bin_data h' binstyles).
Proof.
  intros Hbin.
  pose proof (bin_data_Ok _ _ _ Hbin) as (Hb & Hlen & Hb' & Hn & _ & Hext & _ & t & Ht & _).
  rewrite Hb in Hb'. split; [done|]. split.
  - intros v Hv. by apply add_data_succeeds.
  - unfold bin_data. rewrite Hb', Hn, Hext.
    apply Nat.eqb_eq in Hlen. rewrite Hlen. cbn [negb]. rewrite Ht. by eexists.
Qed.

(** C2 (as the code behaves).  After a successful [bin_data] the flag
    [haveBinned] is still [false]: a further [add_data] and a further
    [bin_data] both succeed. *)
Theorem C2_binning_leaves_histogram_open :
  ∃ h h', add_data (new 1) [0.5] = Ok h ∧
          bin_data h [Some (BinLinear 1)] = Ok h' ∧
          haveBinned h' = false ∧
          is_Ok (add_data h' [0.25]) ∧
          is_Ok (bin_data h' [Some (BinLinear 1)]).
Proof.
  eexists _, _. split; [reflexivity|]. split; [reflexivity|].
  split; [reflexivity|]. split; by eexists.
Qed.

(** C1 (as the code behaves).  For the ten points of the scenario the
    representative coordinates of the bins are 0.25 and 0.75 on both axes,
    and [binned_data] has its four entries, all 0, not 4, 3, 1 and 0: no
    tuple is tallied. *)
Theorem C1_scenario_coordinates_without_counts :
  ∃ h h', add_all (new 2) scenario_points = Ok h ∧
          extremes h = [(0.0, 1.0); (0.0, 1.0)] ∧
          bin_data h [Some (BinLinear 2); Some (BinLinear 2)] = Ok h' ∧
          Forall2 (Forall2 Qeq) (bin_value h') [[0.25; 0.75]; [0.25; 0.75]] ∧
          binned_data h' = [0; 0; 0; 0] ∧
          binned_data h' ≠ [4; 3; 1; 0] ∧
          data h' = rev scenario_points.
Proof.
  eexists _, _. split; [vm_compute; reflexivity|]. split; [reflexivity|].
  split; [vm_compute; reflexivity|].
  split; [repeat constructor; reflexivity|].
  split; [reflexivity|]. split; [discriminate|reflexivity].
Qed.

(** The counts of the scenario, had the tuples been tallied with the upper
    bound of each axis open: 4, 3, 1 and 0, the two tuples with a coordinate
    at the maximum 1.0 falling in no bin. *)
Example scenario_intended_counts :
  intended_tally [BinLinear 2; BinLinear 2] [(0.0, 1.0); (0.0, 1.0)]
    scenario_points 4 = [4; 3; 1; 0]%nat ∧
  bin_of [BinLinear 2; BinLinear 2] [(0.0, 1.0); (0.0, 1.0)] [1.0; 0.7] 0 = None ∧
  bin_of [BinLinear 2; BinLinear 2] [(0.0, 1.0); (0.0, 1.0)] [0.7; 1.0] 0 = None.
Proof. repeat split; vm_compute; reflexivity. Qed.

End HistogramFacts.

Module SimulatorFacts.
Import Simulator.
Section WithModel.
Context {Engine Model : Type} `{!SimulateModelOps Engine Model}.

(** The sequential evaluation returns a vector exactly when every
    function returns, and the vector holds their values in order. *)
Lemma eval_all_Ok (params : list Q) (fs : list ObservableFunction) (xs : list Q) :
  eval_all params fs = Ok xs ↔ Forall2 (λ f x, f params = Ok x) fs xs.
Proof.
  revert xs. induction fs as [|f fs IH]; intros xs; cbn [eval_all].
  - split; [intros [= <-]; constructor|]. by intros ->%Forall2_nil_inv_l.
  - split.
    + destruct (f params) as [x|e] eqn:Hf; [|done]. cbn [rbind].
      destruct (eval_all params fs) as [xs'|e] eqn:He; [|done]. cbn [rbind].
      intros [= <-]. constructor; [done|]. by apply IH.
    + intros (x & xs' & Hx & Hxs & ->)%Forall2_cons_inv_l.
      rewrite Hx. cbn [rbind]. apply IH in Hxs. by rewrite Hxs.
Qed.

(** An exception of one of the functions is the outcome of the
    evaluation. *)
Lemma eval_all_Err (params : list Q) (fs : list ObservableFunction) :
  (∃ f, f ∈ fs ∧ is_Err (f params)) → is_Err (eval_all params fs).
Proof.
  induction fs as [|f fs IH]; intros (g & Hg & Herr).
  - by apply elem_of_nil in Hg.
  - cbn [eval_all]. destruct (f params) as [x|e] eqn:Hf; [|by eexists].
    cbn [rbind]. apply elem_of_cons in Hg as [->|Hg].
    + destruct Herr as [e He]. congruence.
    + destruct IH as [e He]; [by exists g|]. rewrite He. by eexists.
Qed.

(** The loop of [simulate] over the columns [start .. start + n - 1]
    evaluates their functions in turn and stores the values in place. *)
Lemma calculate_loop (params : list Q) (fs : list ObservableFunction)
    (n start : nat) (ret : list Q) :
  (start + n ≤ length fs)%nat → length ret = length fs →
  for_loop_from start n (calculate fs params) ret =
  rbind (eval_all params (take n (drop start fs)))
    (λ xs, Ok (take start ret ++ xs ++ drop (start + n) ret)).
Proof.
  revert start ret. induction n as [|n IH]; intros start ret Hn Hlen.
  - rewrite take_0. cbn [for_loop_from eval_all rbind app].
    by rewrite Nat.add_0_r, take_drop.
  - destruct (lookup_lt_is_Some_2 fs start) as [f Hf]; [lia|].
    rewrite (drop_S _ _ _ Hf), firstn_cons. cbn [eval_all for_loop_from].
    unfold calculate at 1. rewrite Hf.
    destruct (f params) as [x|e]; [|done]. cbn [rbind].
    rewrite IH by (rewrite ?length_insert; lia).
    destruct (eval_all params (take n (drop (S start) fs))) as [xs|e]; [|done].
    cbn [rbind]. f_equal.
    rewrite (take_S_r (<[start:=x]> ret) start x)
      by (apply list_lookup_insert_eq; lia).
    rewrite take_insert_ge, drop_insert_lt by lia.
    replace (S start + n)%nat with (start + S n)%nat by lia.
    by rewrite <- app_assoc.
Qed.

(** [simulate] with at least one column: one call of
    [generateParameters], then the columns evaluated on its vector. *)
Lemma simulate_columns (s : Simulator) (r : Engine) :
  obs_functions s ≠ [] →
  simulate s r =
  (eval_all (fst (generateParameters (model s) r)) (obs_functions s),
   snd (generateParameters (model s) r)).
Proof.
  intros Hne. unfold simulate.
  destruct (obs_functions s) as [|f fs] eqn:Hfs; [done|].
  cbn [length Nat.eqb]. destruct (generateParameters (model s) r) as [params r'].
  cbn [fst snd]. f_equal. unfold for_loopM.
  rewrite calculate_loop by (rewrite ?length_replicate; cbn; lia).
  rewrite drop_0, take_ge by (cbn; lia).
  destruct (eval_all params (f :: fs)) as [xs|e] eqn:He; [|done].
  cbn [rbind]. f_equal. rewrite take_0, drop_ge, app_nil_r; [done|].
  rewrite length_replicate. cbn. lia.
Qed.

(** C3.  With no column bound [simulate] throws [NoObservables] (and
    leaves the engine).  With at least one column bound it draws one
    parameter vector [params] from the model, once (the engine it leaves
    is the one that single call leaves), and returns a vector exactly when
    every bound function returns on [params]: the vector has one entry per
    column and entry [j] is the value of the [j]-th function on [params];
    an exception of a bound function is passed on. *)
Theorem C3_simulate_one_vector_for_all_columns (s : Simulator) (r : Engine) :
  (obs_functions s = [] → simulate s r = (Err NoObservables, r)) ∧
  (obs_functions s ≠ [] →
   ∃ params r',
     generateParameters (model s) r = (params, r') ∧
     snd (simulate s r) = r' ∧
     (∀ vals, fst (simulate s r) = Ok vals ↔
              Forall2 (λ f x, f params = Ok x) (obs_functions s) vals) ∧
     (∀ vals, fst (simulate s r) = Ok vals →
              length vals = length (obs_functions s) ∧
              ∀ j f, obs_functions s !! j = Some f →
                     ∃ x, vals !! j = Some x ∧ f params = Ok x) ∧
     ((∃ f, f ∈ obs_functions s ∧ is_Err (f params)) →
      is_Err (fst (simulate s r)))).
Proof.
  split.
  - intros Hnil. unfold simulate. by rewrite Hnil.
  - intros Hne. destruct (generateParameters (model s) r) as [params r'] eqn:Hgen.
    exists params, r'. rewrite (simulate_columns s r Hne), Hgen. cbn [fst snd].
    split; [done|]. split; [done|]. split; [|split].
    + intros vals. apply eval_all_Ok.
    + intros vals Hvals%eval_all_Ok. split.
      * symmetry. by eapply Forall2_length.
      * intros j f Hf.
        destruct (Forall2_lookup_l _ _ _ _ _ Hvals Hf) as (x & Hx & Hfx).
        by exists x.
    + apply eval_all_Err.
Qed.

(** C4.  With [L] columns bound, [setObservable j key] returns only when
    [j ≤ L].  It throws [std::out_of_range] when [j > L]; otherwise it
    throws [IncompatibleObservable] when the model does not support [key];
    otherwise it appends the function of [key] as a new column when
    [j = L] and replaces column [j], leaving the others, when [j < L]. *)
Theorem C4_setObservable_contiguous
    (s : Simulator) (j : nat) (key : ObservableIndex) :
  let L := length (obs_functions s) in
  (is_Ok (setObservable s j key) → j ≤ L) ∧
  (L < j → setObservable s j key = Err std_out_of_range) ∧
  (j ≤ L → ¬ supports (model s) key →
   setObservable s j key = Err IncompatibleObservable) ∧
  (∀ func, getObservableFunction (model s) key = Some func →
     (j = L →
      ∃ s', setObservable s j key = Ok s' ∧ model s' = model s ∧
            obs_functions s' = obs_functions s ++ [func] ∧
            length (obs_functions s') = S L) ∧
     (j < L →
      ∃ s', setObservable s j key = Ok s' ∧ model s' = model s ∧
            length (obs_functions s') = L ∧
            obs_functions s' !! j = Some func ∧
            ∀ i, i ≠ j → obs_functions s' !! i = obs_functions s !! i)).
Proof.
  intros L. unfold setObservable. fold L.
  destruct (Nat.ltb_spec L j) as [Hlt|Hle].
  - split; [by intros [? ?]|]. split; [done|]. split; [lia|].
    intros func _. split; lia.
  - split; [done|]. split; [lia|]. split.
    + intros _ Hno. destruct (getObservableFunction (model s) key) eqn:Hget; [|done].
      destruct Hno. by eexists.
    + intros func ->. destruct (Nat.ltb_spec j L) as [Hjl|Hjl]; split; try lia.
      * intros _. eexists. split; [done|]. cbn. split; [done|].
        split; [by rewrite length_insert|].
        split; [by apply list_lookup_insert_eq|].
        intros i Hi. by apply list_lookup_insert_ne.
      * intros _. eexists. split; [done|]. cbn. split; [done|]. split; [done|].
        rewrite length_app. cbn. lia.
Qed.

End WithModel.

Import TestModel.

Lemma C3_simulate_one_vector_for_all_columns_witness :
obs_functions two_columns ≠ [] ∧
simulate (new test_model) 0%nat = (Err NoObservables, 0%nat) ∧
simulate two_columns 0%nat = (Ok [distvalue; constvalue], 1%nat).
Proof.
split; [discriminate|]. split.
- by apply (C3_simulate_one_vector_for_all_columns (new test_model) 0%nat).
- destruct (C3_simulate_one_vector_for_all_columns two_columns 0%nat)
    as [_ Hsome].
  destruct Hsome as (params & r' & Hgen & Hr & Hvals & _); [discriminate|].
  injection Hgen as <- <-.
  destruct (simulate two_columns 0%nat) as [res r1] eqn:Hsim.
  cbn [fst snd] in Hr, Hvals. subst r1. f_equal.
  apply Hvals. repeat constructor.
Defined.

(** With [BasicObs3], which throws, bound to the second of three columns,
    [simulate] passes the exception on, the parameter vector being drawn. *)
Example simulate_passes_exception :
  ∃ s1 s2 s3,
    setObservable (Engine := nat) (new test_model) 0 "BasicObs1" = Ok s1 ∧
    setObservable (Engine := nat) s1 1 "BasicObs3" = Ok s2 ∧
    setObservable (Engine := nat) s2 2 "BasicObs2" = Ok s3 ∧
    simulate s3 0%nat = (Err NoObservableProduced, 1%nat).
Proof. eexists _, _, _. repeat split; reflexivity. Qed.

Lemma C4_setObservable_contiguous_witness :
setObservable (Engine := nat) two_columns 3 "BasicObs1" = Err std_out_of_range ∧
setObservable (Engine := nat) two_columns 2 "BasicObs4" = Err IncompatibleObservable ∧
(∃ s', setObservable (Engine := nat) two_columns 2 "BasicObs2" = Ok s' ∧
       length (obs_functions s') = 3%nat) ∧
(∃ s', setObservable (Engine := nat) two_columns 0 "BasicObs2" = Ok s' ∧
       length (obs_functions s') = 2%nat).
Proof.
pose proof (C4_setObservable_contiguous (Engine := nat) two_columns) as H.
split; [|split; [|split]].
- apply (H 3%nat "BasicObs1"). cbn. lia.
- apply (H 2%nat "BasicObs4"); [cbn; lia|]. by intros [? ?].
- destruct (H 2%nat "BasicObs2") as (_ & _ & _ & Hset).
  destruct (Hset (λ _, Ok constvalue) eq_refl) as [Happend _].
  destruct Happend as (s' & Hs' & _ & _ & Hlen); [reflexivity|].
  exists s'. by split.
- destruct (H 0%nat "BasicObs2") as (_ & _ & _ & Hset).
  destruct (Hset (λ _, Ok constvalue) eq_refl) as [_ Hrebind].
  destruct Hrebind as (s' & Hs' & _ & Hlen & _); [cbn; lia|].
  exists s'. by split.
Defined.

End SimulatorFacts.

Module ModelFacts.
Import Model.
Section WithEngine.
Context {Engine : Type}.
Implicit Types (m sub proto : SimulateModel Engine)
               (f : SimulateModelFactory Engine)
               (calls : list (factory_call Engine)).

(** Induction on the tree of submodels. *)
Lemma SimulateModel_tree_ind (P : SimulateModel Engine → Prop) :
  (∀ names ds t st subs, Forall P subs →
     P (mkSimulateModel names ds t st subs)) →
  ∀ m, P m.
Proof.
  intros Hstep. fix IH 1. intros [names ds t st subs]. apply Hstep.
  induction subs as [|sub subs IHsubs]; constructor; [apply IH|exact IHsubs].
Qed.

Lemma fold_left_count {A} (g : A → nat) (l : list A) (n : nat) :
  fold_left (λ ret x, (ret + g x)%nat) l n = (n + sum_list (g <$> l))%nat.
Proof.
  revert n. induction l as [|x l IH]; intros n; cbn; [lia|]. rewrite IH. lia.
Qed.

Lemma get_num_parameters_sum m :
  get_num_parameters m =
  (get_num_composite_parameters m
   + sum_list (get_num_parameters <$> submodels m))%nat.
Proof. destruct m as [names ds t st subs]. cbn. apply fold_left_count. Qed.

Lemma sample_dists_length (ds : list (option (RandomDistribution Engine)))
    (r : Engine) :
  length (fst (sample_dists ds r)) = length ds.
Proof.
  revert r. induction ds as [|d ds IH]; intros r; cbn [sample_dists]; [done|].
  destruct (match d with Some dist => sample dist r | None => (0%Q, r) end)
    as [x r1].
  specialize (IH r1). destruct (sample_dists ds r1) as [xs r2]. cbn in *. lia.
Qed.

(** The vectors of the submodels are appended to what was sampled so
    far. *)
Lemma generate_submodels_length (subs : list (SimulateModel Engine))
    (acc : list Q * Engine) :
  Forall (λ sub, ∀ r, length (fst (generateParameters sub r))
                      = get_num_parameters sub) subs →
  length (fst (fold_left
                 (λ acc sub,
                    let '(qs, r2) := generateParameters sub (snd acc) in
                    (fst acc ++ qs, r2))
                 subs acc))
  = (length (fst acc) + sum_list (get_num_parameters <$> subs))%nat.
Proof.
  revert acc. induction subs as [|sub subs IH]; intros acc Hall; cbn; [lia|].
  inversion Hall as [|? ? Hsub Hsubs]; subst.
  rewrite IH by done. specialize (Hsub (snd acc)).
  destruct (generateParameters sub (snd acc)) as [qs r2]. cbn in *.
  rewrite length_app. lia.
Qed.

Lemma generateParameters_length m :
  dists_sized m →
  ∀ r, length (fst (generateParameters m r)) = get_num_parameters m.
Proof.
  induction m as [names ds t st subs IH] using SimulateModel_tree_ind.
  intros [Hds Hsubs] r. cbn [generateParameters].
  rewrite generate_submodels_length.
  - rewrite sample_dists_length, (get_num_parameters_sum (mkSimulateModel _ _ _ _ _)).
    unfold get_num_composite_parameters. cbn. lia.
  - clear Hds r. induction subs as [|sub subs IHsubs]; [constructor|].
    inversion IH as [|? ? Hsub Hrest]; subst. destruct Hsubs as [Hs Hss].
    constructor; [by apply Hsub|by apply IHsubs].
Qed.

(** C5.  The number of parameters of a (composite) model is the number it
    declares itself plus the sum of the numbers of its submodels, and the
    vector [generateParameters] returns for a model whose handles are in
    place has exactly that length. *)
Theorem C5_composite_parameter_count m :
  get_num_parameters m =
    (get_num_composite_parameters m
     + sum_list (get_num_parameters <$> submodels m))%nat ∧
  (dists_sized m →
   ∀ r, length (fst (generateParameters m r)) = get_num_parameters m).
Proof. split; [apply get_num_parameters_sum|apply generateParameters_length]. Qed.

(** *** The factory *)

Lemma fold_left_emplace (names : list string) (acc : gset string) (x : string) :
  x ∈ fold_left (λ acc iter, {[to_lower iter]} ∪ acc) names acc ↔
  x ∈ acc ∨ ∃ name, name ∈ names ∧ x = to_lower name.
Proof.
  revert acc. induction names as [|n names IH]; intros acc; cbn [fold_left].
  - split; [by left|]. intros [?|(name & Hin & _)]; [done|].
    by apply elem_of_nil in Hin.
  - rewrite IH, elem_of_union, elem_of_singleton. split.
    + intros [[->|?]|(name & Hin & ->)].
      * right. exists n. split; [apply list_elem_of_here|done].
      * by left.
      * right. exists name. split; [by apply list_elem_of_further|done].
    + intros [?|(name & [->|Hin]%elem_of_cons & ->)].
      * left. by right.
      * left. by left.
      * right. by exists name.
Qed.

(** [makeFactory] leaves every declared name to be specified. *)
Lemma makeFactory_remaining proto (x : string) :
  x ∈ remaining_names (makeFactory proto) ↔
  ∃ name, name ∈ get_names proto ∧ x = to_lower name.
Proof.
  unfold makeFactory. cbn [remaining_names]. rewrite fold_left_emplace.
  split; [|by right]. intros [Hin|?]; [|done]. by apply not_elem_of_empty in Hin.
Qed.

(** [setDistribution] takes the name off the remaining ones and touches
    neither the kind of the model nor its submodels. *)
Lemma setDistribution_effect f (name : string) dist :
  let f' := fst (setDistribution f name dist) in
  (∀ x, x ∈ remaining_names f' ↔ x ∈ remaining_names f ∧ x ≠ to_lower name) ∧
  getSubmodelType (model f') = getSubmodelType (model f) ∧
  submodels (model f') = submodels (model f) ∧
  get_names (model f') = get_names (model f) ∧
  length (dists (model f')) = length (dists (model f)).
Proof.
  unfold setDistribution.
  destruct (decide (to_lower name ∈ remaining_names f)) as [Hin|Hnot];
    cbn [fst model remaining_names getSubmodelType submodels get_names dists].
  - split; [intros x; set_solver|]. repeat split.
    destruct (position _ _); by rewrite ?length_insert.
  - split; [|done]. intros x. split; [|by intros [? _]].
    intros Hx. split; [done|]. by intros ->.
Qed.

Lemma addSubmodel_effect f f' sub :
  addSubmodel f sub = Ok f' →
  remaining_names f' = remaining_names f ∧
  getSubmodelType (model f') = getSubmodelType (model f) ∧
  is_Some (getSubmodelType (model f)) ∧
  submodels (model f') = submodels (model f) ++ [sub] ∧
  get_names (model f') = get_names (model f) ∧
  dists (model f') = dists (model f).
Proof.
  unfold addSubmodel. destruct (getSubmodelType (model f)) as [t|] eqn:Ht; [|done].
  destruct (String.eqb _ _); [|done]. intros [= <-]. cbn.
  repeat split; try done; by eexists.
Qed.

(** The remaining names after a sequence of calls: the declared names no
    call has bound. *)
Lemma after_calls_remaining calls f f' (x : string) :
  after_calls f calls = Ok f' →
  x ∈ remaining_names f' ↔
  x ∈ remaining_names f ∧
  ¬ ∃ name' dist, SetDistribution name' dist ∈ calls ∧ to_lower name' = x.
Proof.
  revert f. induction calls as [|[name dist|sub] calls IH]; intros f; cbn [after_calls].
  - intros [= <-]. split; [|by intros [? _]]. intros Hx. split; [done|].
    intros (? & ? & Hin & _). by apply elem_of_nil in Hin.
  - intros Hrest. rewrite (IH _ Hrest).
    destruct (setDistribution_effect f name dist) as (Hrem & _). rewrite Hrem.
    split.
    + intros [[Hx Hne] Hno]. split; [done|].
      intros (name' & dist' & [[= -> ->]|Hin]%elem_of_cons & Hlow); [done|].
      apply Hno. by exists name', dist'.
    + intros [Hx Hno]. split; [split; [done|]|].
      * intros ->. apply Hno. exists name, dist. split; [apply list_elem_of_here|done].
      * intros (name' & dist' & Hin & Hlow). apply Hno. exists name', dist'.
        split; [by apply list_elem_of_further|done].
  - destruct (addSubmodel f sub) as [f1|e] eqn:Hadd; [|done]. cbn [rbind].
    intros Hrest. rewrite (IH _ Hrest).
    apply addSubmodel_effect in Hadd as (-> & _).
    split; intros [Hx Hno]; (split; [done|]).
    + intros (name' & dist' & [[=]|Hin]%elem_of_cons & Hlow).
      apply Hno. by exists name', dist'.
    + intros (name' & dist' & Hin & Hlow). apply Hno. exists name', dist'.
      split; [by apply list_elem_of_further|done].
Qed.

(** The submodels after a sequence of calls: those the calls added, in
    order, after those the model had. *)
Lemma after_calls_submodels calls f f' :
  after_calls f calls = Ok f' →
  getSubmodelType (model f') = getSubmodelType (model f) ∧
  submodels (model f') = submodels (model f) ++ added_submodels calls.
Proof.
  revert f. induction calls as [|[name dist|sub] calls IH]; intros f;
    cbn [after_calls added_submodels].
  - intros [= <-]. by rewrite app_nil_r.
  - intros Hrest. destruct (IH _ Hrest) as (Ht & Hs).
    destruct (setDistribution_effect f name dist) as (_ & Ht1 & Hs1 & _).
    by rewrite Ht, Hs, Ht1, Hs1.
  - destruct (addSubmodel f sub) as [f1|e] eqn:Hadd; [|done]. cbn [rbind].
    intros Hrest. destruct (IH _ Hrest) as (Ht & Hs).
    apply addSubmodel_effect in Hadd as (_ & Ht1 & _ & Hs1 & _).
    rewrite Ht, Hs, Ht1, Hs1. by rewrite <- app_assoc.
Qed.

Lemma adds_submodel_added calls :
  adds_submodel calls ↔ added_submodels calls ≠ [].
Proof.
  unfold adds_submodel.
  induction calls as [|[name dist|sub] calls IH]; cbn [added_submodels].
  - split; [|done]. intros (sub & Hin). by apply elem_of_nil in Hin.
  - rewrite <- IH. split.
    + intros (sub & [[=]|Hin]%elem_of_cons). by exists sub.
    + intros (sub & Hin). exists sub. by apply list_elem_of_further.
  - split; [done|]. intros _. exists sub. apply list_elem_of_here.
Qed.

(** [getModel], with the cast to a composite model spelled out. *)
Lemma getModel_cases f :
  getModel f =
  if decide (remaining_names f = ∅) then
    match getSubmodelType (model f), submodels (model f) with
    | Some _, [] => Err NoSubmodels
    | _, _ => Ok (model f)
    end
  else Err MissingDistribution.
Proof.
  unfold getModel, comp_model.
  destruct (decide _); [|done].
  by destruct (getSubmodelType (model f)), (submodels (model f)).
Qed.

(** C6.  Let a factory be made for a model type and receive calls that
    all return.  [getModel] throws [MissingDistribution] if one of the
    declared names was not bound by a call.  Once every declared name is
    bound it returns the model, except for a composite model to which no
    call added a submodel, where it throws [NoSubmodels]. *)
Theorem C6_getModel_completeness proto calls f :
  submodels proto = [] →
  after_calls (makeFactory proto) calls = Ok f →
  ((∃ name, name ∈ get_names proto ∧ ¬ bound_by calls name) →
   getModel f = Err MissingDistribution) ∧
  ((∀ name, name ∈ get_names proto → bound_by calls name) →
   (getSubmodelType proto = None → getModel f = Ok (model f)) ∧
   (is_Some (getSubmodelType proto) → adds_submodel calls →
    getModel f = Ok (model f)) ∧
   (is_Some (getSubmodelType proto) → ¬ adds_submodel calls →
    getModel f = Err NoSubmodels)).
Proof.
  intros Hnosub Hcalls.
  pose proof (after_calls_submodels _ _ _ Hcalls) as (Ht & Hs).
  cbn [makeFactory model getSubmodelType submodels] in Ht, Hs.
  rewrite Hnosub in Hs. cbn [app] in Hs.
  rewrite getModel_cases, Ht, Hs. split.
  - intros (name & Hin & Hunbound).
    destruct (decide (remaining_names f = ∅)) as [Hempty|]; [|done].
    assert (Hrem : to_lower name ∈ remaining_names f).
    { apply (after_calls_remaining _ _ _ _ Hcalls). split.
      - apply makeFactory_remaining. by exists name.
      - intros (name' & dist & Hcall & Hlow). apply Hunbound.
        by exists name', dist. }
    rewrite Hempty in Hrem. by apply not_elem_of_empty in Hrem.
  - intros Hbound.
    assert (Hempty : remaining_names f = ∅).
    { apply elem_of_equiv_empty_L. intros x Hx.
      apply (after_calls_remaining _ _ _ _ Hcalls) in Hx as [Hdecl Hno].
      apply makeFactory_remaining in Hdecl as (name & Hin & ->).
      destruct (Hbound name Hin) as (name' & dist & Hcall & Hlow).
      apply Hno. by exists name', dist. }
    destruct (decide (remaining_names f = ∅)); [|done].
    split; [by intros ->|]. split.
    + intros [t ->] Hadd%adds_submodel_added.
      by destruct (added_submodels calls).
    + intros [t ->] Hadd. destruct (added_submodels calls) eqn:Hnone; [done|].
      destruct Hadd. apply adds_submodel_added. by rewrite Hnone.
Qed.

(** The model a factory holds has one handle per declared name, and so
    has its tree when the submodels added have. *)
Lemma factory_model_sized proto calls f :
  submodels proto = [] →
  after_calls (makeFactory proto) calls = Ok f →
  Forall dists_sized (added_submodels calls) →
  dists_sized (model f).
Proof.
  intros Hnosub Hcalls Hsubs.
  assert (Hgen : ∀ calls f0 f1,
             after_calls f0 calls = Ok f1 →
             get_names (model f1) = get_names (model f0) ∧
             length (dists (model f1)) = length (dists (model f0))).
  { clear. induction calls as [|[name dist|sub] calls IH]; intros f0 f1;
      cbn [after_calls].
    - by intros [= <-].
    - intros Hrest. destruct (IH _ _ Hrest) as (-> & ->).
      by destruct (setDistribution_effect f0 name dist) as (_ & _ & _ & -> & ->).
    - destruct (addSubmodel f0 sub) as [f2|e] eqn:Hadd; [|done]. cbn [rbind].
      intros Hrest. destruct (IH _ _ Hrest) as (-> & ->).
      by apply addSubmodel_effect in Hadd as (_ & _ & _ & _ & -> & ->). }
  destruct (Hgen _ _ _ Hcalls) as (Hnames & Hlen).
  pose proof (after_calls_submodels _ _ _ Hcalls) as (_ & Hs).
  cbn [makeFactory model get_names dists submodels] in Hnames, Hlen, Hs.
  rewrite Hnosub in Hs. cbn [app] in Hs.
  destruct (model f) as [names ds t st subs]. cbn in *. subst names subs.
  split.
  - rewrite Hlen, length_resize.
    rewrite (get_num_parameters_sum proto), Hnosub.
    unfold get_num_composite_parameters. cbn. lia.
  - clear -Hsubs. induction Hsubs; cbn; [done|]. by split.
Qed.

End WithEngine.

Import Junction.

Lemma C5_composite_parameter_count_witness :
dists_sized junction ∧
get_num_parameters junction = (0 + (2 + (2 + 0)))%nat ∧
length (fst (generateParameters junction 0%nat)) = get_num_parameters junction.
Proof.
split; [by cbn|]. split.
- apply (C5_composite_parameter_count junction).
- apply (C5_composite_parameter_count junction). by cbn.
Defined.

(** A composite model with no parameter of its own and two submodels of two
  parameters has 4 parameters; the vector is the two values of the first
  submodel, then the two of the second. *)
Example junction_parameters :
get_num_parameters junction = 4%nat ∧
fst (generateParameters junction 0%nat) = [1; 2; 3; 4]%Q.
Proof. by split. Qed.

Lemma channel_names_bound (name : string) :
name ∈ get_names channel_proto → bound_by (channel_calls 1 2) name.
Proof.
intros [->|[->|Hin%elem_of_nil]%elem_of_cons]%elem_of_cons; [| |done].
- exists "Epsilon", (Some (ConstantDistribution 1)).
  split; [apply list_elem_of_here|reflexivity].
- exists "gamma", (Some (ConstantDistribution 2)).
  split; [apply list_elem_of_further, list_elem_of_here|reflexivity].
Qed.

Lemma C6_getModel_completeness_witness :
after_calls (makeFactory channel_proto) (channel_calls 1 2) = Ok channel_factory ∧
getModel channel_factory = Ok (channel 1 2) ∧
getModel (makeFactory channel_proto) = Err MissingDistribution ∧
getModel (makeFactory junction_proto) = Err NoSubmodels.
Proof.
split; [vm_compute; reflexivity|]. split; [|split].
- destruct (C6_getModel_completeness channel_proto (channel_calls 1 2)
              channel_factory) as [_ Hbound];
    [reflexivity|vm_compute; reflexivity|].
  by destruct (Hbound channel_names_bound) as [-> _].
- apply (C6_getModel_completeness channel_proto [] (makeFactory channel_proto));
    [reflexivity|reflexivity|].
  exists "epsilon". split; [apply list_elem_of_here|].
  intros (? & ? & Hin & _). by apply elem_of_nil in Hin.
- apply (C6_getModel_completeness junction_proto [] (makeFactory junction_proto));
    [reflexivity|reflexivity| |by eexists|].
  + intros name Hin. by apply elem_of_nil in Hin.
  + intros (? & Hin). by apply elem_of_nil in Hin.
Defined.

End ModelFacts.

Module BinStylesFacts.
Import BinStyles.
Local Open Scope R_scope.

Lemma ln_base_pos (b : R) : 1 < b → 0 < ln b.
Proof. intros Hb. rewrite <- ln_1. apply ln_increasing; [Lra.lra|done]. Qed.

Lemma log_round_trip (b x : R) : 1 < b → 0 < x → Rpower b (ln x / ln b) = x.
Proof.
  intros Hb Hx. pose proof (ln_base_pos b Hb) as Hln.
  unfold Rpower. replace (ln x / ln b * ln b) with (ln x) by (field; Lra.lra).
  by apply exp_ln.
Qed.

(** C9.  For the linear style and for the logarithmic style of any base
    b > 1, unmasking the mask of a value of the domain of the style (any
    value; a positive value for the logarithmic style) gives the value
    back: exactly over the real numbers, hence within every tolerance. *)
Theorem C9_mask_round_trip (style : BinStyleR) (x : R) :
  variant style → domain style x →
  invmask style (mask style x) = x ∧
  ∀ tol, 0 < tol → Rabs (invmask style (mask style x) - x) < tol.
Proof.
  intros Hvar Hdom.
  assert (Heq : invmask style (mask style x) = x).
  { destruct Hvar as [|b Hb]; cbn in *; [done|by apply log_round_trip]. }
  split; [done|]. intros tol Htol. rewrite Heq.
  replace (x - x) with 0 by Lra.lra. by rewrite Rabs_R0.
Qed.

Lemma C9_mask_round_trip_witness :
  variant (BinLog 10) ∧ domain (BinLog 10) 2 ∧
  invmask (BinLog 10) (mask (BinLog 10) 2) = 2.
Proof.
  assert (Hvar : variant (BinLog 10)) by (constructor; Lra.lra).
  assert (Hdom : domain (BinLog 10) 2) by (cbn; Lra.lra).
  split; [exact Hvar|]. split; [exact Hdom|].
  apply (C9_mask_round_trip (BinLog 10) 2 Hvar Hdom).
Defined.

(** The derivative of the logarithmic mask is positive on its domain. *)
Lemma log_dmaskdx_pos (b x : R) : 1 < b → 0 < x → 0 < dmaskdx (BinLog b) x.
Proof.
  intros Hb Hx. cbn. apply Rinv_0_lt_compat, Rmult_lt_0_compat; [done|].
  by apply ln_base_pos.
Qed.

End BinStylesFacts.

(** ** More on the histogram *)

Module HistogramMore.
Import Histogram HistogramNotions HistogramFacts.
Local Open Scope Q_scope.

Lemma check_limits_length (v : list Q) (n : nat) (ext : list (Q * Q)) :
  length (for_loop n (check_limits v) ext) = length ext.
Proof.
  induction n as [|n IH]; [done|]. rewrite for_loop_S. unfold check_limits.
  repeat (destruct (Qlt_le_dec _ _); rewrite ?length_insert); done.
Qed.

Lemma add_all_extremes_length (vs : list (list Q)) (h h' : Histogram) :
  add_all h vs = Ok h' → length (extremes h') = length (extremes h).
Proof.
  revert h. induction vs as [|v vs IH]; intros h; cbn [add_all].
  - by intros [= <-].
  - destruct (add_data h v) as [h1|e] eqn:Hadd; [|done]. cbn [rbind].
    intros Hrest. rewrite (IH _ Hrest). unfold add_data in Hadd.
    destruct (haveBinned h); [done|].
    destruct (negb _); [done|]. injection Hadd as <-. cbn.
    apply check_limits_length.
Qed.

Lemma add_all_wrong_size (vs : list (list Q)) (h : Histogram) :
  haveBinned h = false → Exists (λ v, length v ≠ ndim h) vs →
  add_all h vs = Err IncorrectDimensionality.
Proof.
  revert h. induction vs as [|v vs IH]; intros h Hb Hex.
  - by apply Exists_nil in Hex.
  - cbn [add_all]. destruct (decide (length v = ndim h)) as [Hlen|Hlen].
    + destruct (add_data_succeeds h v Hb Hlen) as [h1 Hadd]. rewrite Hadd.
      cbn [rbind]. apply add_data_Ok in Hadd as (_ & _ & Hb1 & Hn1 & _).
      apply IH; [done|]. rewrite Hn1.
      apply Exists_cons in Hex as [?|?]; [done|done].
    + unfold add_data. rewrite Hb.
      apply Nat.eqb_neq in Hlen. by rewrite Hlen.
Qed.

(** X1.  A sequence of [add_data] calls on a new histogram of [n] axes is
    accepted when every tuple has [n] coordinates, and then the histogram
    holds all the tuples, newest first, with one pair of extremes per axis
    and nothing binned; when some tuple has another number of coordinates
    the sequence ends in the invalid-argument exception of [add_data]. *)
Theorem X1_add_data_keeps_every_tuple (n : nat) (vs : list (list Q)) :
  (Forall (λ v, length v = n) vs →
   ∃ h, add_all (new n) vs = Ok h ∧
        ndim h = n ∧ length (extremes h) = n ∧
        data h = rev vs ∧ Forall (λ v, length v = n) (data h) ∧
        haveBinned h = false ∧ bin_value h = [] ∧ binned_data h = []) ∧
  (Exists (λ v, length v ≠ n) vs →
   add_all (new n) vs = Err IncorrectDimensionality ∧
   exception_class IncorrectDimensionality = invalid_argument).
Proof.
  split.
  - intros Hall. destruct (add_all_succeeds vs (new n) eq_refl Hall) as [h Hh].
    exists h. split; [done|].
    pose proof (add_all_extremes_length _ _ _ Hh) as Hlen.
    destruct (add_all_Ok vs (new n) h Hh eq_refl)
      as (_ & Hb & Hn & Hd & Hbv & Hbd & _).
    cbn in Hn, Hd, Hbv, Hbd, Hlen. rewrite length_replicate in Hlen.
    rewrite app_nil_r in Hd. repeat split; try done.
    rewrite Hd. by apply Forall_rev.
  - intros Hex. split; [|done]. by apply add_all_wrong_size.
Qed.

Lemma X1_add_data_keeps_every_tuple_witness :
  (∃ h, add_all (new 2) two_tuples = Ok h ∧ data h = rev two_tuples) ∧
  add_all (new 2) [[0.4; 0.7]; [0.3]] = Err IncorrectDimensionality.
Proof.
  split.
  - destruct (X1_add_data_keeps_every_tuple 2 two_tuples) as [Hok _].
    destruct Hok as (h & Hh & _ & _ & Hd & _); [by repeat constructor|].
    by exists h.
  - apply (X1_add_data_keeps_every_tuple 2 [[0.4; 0.7]; [0.3]]).
    apply Exists_cons_tl, Exists_cons_hd. cbn. lia.
Defined.

(** X2.  One [add_data] call only widens the extremes, for finite doubles
    (the coordinate added and the pair stored before the call): on every
    axis the new minimum is the old one or the coordinate added, whichever is
    smaller, the new maximum the old one or the coordinate, whichever is
    larger, and the coordinate lies between the two. *)
Theorem X2_add_data_widens_extremes
    (h h' : Histogram) (v : list Q) (j : nat) (mn mx : Q) :
  add_data h v = Ok h' → (j < ndim h)%nat → extremes h !! j = Some (mn, mx) →
  finite (at_ v j) → finite mn → finite mx →
  ∃ mn' mx', extremes h' !! j = Some (mn', mx') ∧
    mn' <= mn ∧ mx <= mx' ∧ mn' <= at_ v j ∧ at_ v j <= mx' ∧
    (mn' = mn ∨ mn' = at_ v j) ∧ (mx' = mx ∨ mx' = at_ v j).
Proof.
  intros Hadd Hj Hext _ _ _.
  apply add_data_Ok in Hadd as (_ & _ & _ & _ & _ & _ & _ & Hnew).
  specialize (Hnew j). destruct (decide (j < ndim h)%nat); [|lia].
  rewrite Hext in Hnew. cbn in Hnew. unfold widen in Hnew. cbn [fst snd] in Hnew.
  eexists _, _. split; [exact Hnew|].
  destruct (Qlt_le_dec (at_ v j) mn), (Qlt_le_dec mx (at_ v j));
    repeat split; try Lqa.lra; auto.
Qed.

Lemma X2_add_data_widens_extremes_witness :
  ∃ mn' mx', extremes two_tuples_histogram !! 0%nat = Some (mn', mx') ∧
             mn' <= 0.4 ∧ 0.4 <= mx' ∧ mn' <= 0.3 ∧ 0.3 <= mx'.
Proof.
  destruct (X2_add_data_widens_extremes
              {| haveBinned := false; ndim := 2; data := [[0.4; 0.7]];
                 extremes := [(0.4, 0.4); (0.7, 0.7)];
                 bin_value := []; binned_data := [] |}
              two_tuples_histogram [0.3; 0.9] 0 0.4 0.4)
    as (mn' & mx' & Hnew & H1 & H2 & H3 & H4 & _);
    [reflexivity|cbn; lia|reflexivity
    |split; vm_compute; discriminate..|].
  by exists mn', mx'.
Defined.

(** The pair stored for an axis bounds every coordinate inserted on it. *)
Lemma add_all_bounds (n : nat) (vs : list (list Q)) (h : Histogram) (j : nat) :
  add_all (new n) vs = Ok h → (j < n)%nat →
  ∃ mn mx, extremes h !! j = Some (mn, mx) ∧
           ∀ x, x ∈ column j vs → mn <= x ∧ x <= mx.
Proof.
  intros Hadd Hj.
  destruct (add_all_Ok vs (new n) h Hadd eq_refl) as (_ & _ & _ & _ & _ & _ & Hext).
  specialize (Hext j Hj). cbn [extremes new] in Hext.
  assert (Hinit : replicate n (DBL_MAX, DBL_LOWEST) !! j
                  = Some (DBL_MAX, DBL_LOWEST)) by (by apply lookup_replicate).
  rewrite Hinit in Hext. cbn in Hext.
  destruct (widen_all (column j vs) (DBL_MAX, DBL_LOWEST)) as [mn mx] eqn:Hw.
  exists mn, mx. split; [done|]. intros x Hx.
  destruct (widen_all_min (column j vs) (DBL_MAX, DBL_LOWEST)) as (_ & Hlow & _).
  destruct (widen_all_max (column j vs) (DBL_MAX, DBL_LOWEST)) as (_ & Hup & _).
  rewrite Hw in Hlow, Hup. cbn [fst snd] in Hlow, Hup. split; auto.
Qed.

(** X3.  After any accepted sequence of [add_data] calls on a new
    histogram, of tuples of finite doubles, the pair stored for an axis
    bounds every coordinate that was inserted on that axis; so, once a tuple
    was added, the stored minimum is at most the stored maximum. *)
Theorem X3_extremes_bound_every_coordinate
    (n : nat) (vs : list (list Q)) (h : Histogram) (j : nat) :
  add_all (new n) vs = Ok h → Forall (Forall finite) vs → (j < n)%nat →
  ∃ mn mx, extremes h !! j = Some (mn, mx) ∧
           (∀ v, v ∈ vs → mn <= at_ v j ∧ at_ v j <= mx) ∧
           (vs ≠ [] → mn <= mx).
Proof.
  intros Hadd _ Hj.
  destruct (add_all_bounds n vs h j Hadd Hj) as (mn & mx & Hlk & Hb).
  exists mn, mx. split; [done|]. split.
  - intros v Hv. apply Hb. unfold column.
    exact (list_elem_of_fmap_2 (λ v : list Q, at_ v j) vs v Hv).
  - destruct vs as [|v vs']; [done|]. intros _.
    destruct (Hb (at_ v j)) as [H1 H2]; [apply list_elem_of_here|]. Lqa.lra.
Qed.

Lemma X3_extremes_bound_every_coordinate_witness :
  ∃ mn mx, extremes two_tuples_histogram !! 1%nat = Some (mn, mx) ∧
           (∀ v, v ∈ two_tuples → mn <= at_ v 1 ∧ at_ v 1 <= mx) ∧
           (two_tuples ≠ [] → mn <= mx).
Proof.
  apply (X3_extremes_bound_every_coordinate 2 two_tuples two_tuples_histogram 1);
    [vm_compute; reflexivity|exact finite_two_tuples|lia].
Defined.

(** X4.  The stored extremes do not depend on the order in which the tuples
    were added: two accepted sequences that are permutations of one another
    (of finite doubles) leave equal minima and equal maxima on every axis,
    and the same tuples in [data]. *)
Theorem X4_extremes_do_not_depend_on_order
    (n : nat) (vs vs' : list (list Q)) (h h' : Histogram) (j : nat) :
  vs ≡ₚ vs' → Forall (Forall finite) vs →
  add_all (new n) vs = Ok h → add_all (new n) vs' = Ok h' → (j < n)%nat →
  data h ≡ₚ data h' ∧
  ∃ mn mx mn' mx', extremes h !! j = Some (mn, mx) ∧
                   extremes h' !! j = Some (mn', mx') ∧
                   mn == mn' ∧ mx == mx'.
Proof.
  intros Hperm Hfin Hadd Hadd' Hj.
  assert (Hfin' : Forall (Forall finite) vs') by (by rewrite <- Hperm).
  destruct (add_all_Ok vs (new n) h Hadd eq_refl) as (_ & _ & _ & Hd & _).
  destruct (add_all_Ok vs' (new n) h' Hadd' eq_refl) as (_ & _ & _ & Hd' & _).
  cbn in Hd, Hd'. rewrite app_nil_r in Hd, Hd'. split.
  { by rewrite Hd, Hd', !reverse_Permutation || rewrite Hd, Hd', <- !Permutation_rev. }
  destruct (add_all_extremes n vs h j Hadd Hfin Hj) as (mn & mx & Hlk & Hmm).
  destruct (add_all_extremes n vs' h' j Hadd' Hfin' Hj) as (mn' & mx' & Hlk' & Hmm').
  exists mn, mx, mn', mx'. split; [done|]. split; [done|].
  destruct vs as [|v0 vs0] eqn:Hvs.
  { apply Permutation_nil_l in Hperm. subst vs'. cbn in Hadd, Hadd'.
    injection Hadd as <-. injection Hadd' as <-. rewrite Hlk in Hlk'.
    injection Hlk' as <- <-. split; reflexivity. }
  rewrite <- Hvs in *.
  assert (Hne : vs ≠ []) by (by rewrite Hvs).
  assert (Hne' : vs' ≠ []).
  { intros ->. apply Permutation_nil_r in Hperm. by rewrite Hperm in Hne. }
  destruct (Hmm Hne) as [[(x & Hx & Hxm) Hlow] [(y & Hy & Hym) Hup]].
  destruct (Hmm' Hne') as [[(x' & Hx' & Hxm') Hlow'] [(y' & Hy' & Hym') Hup']].
  assert (Hcol : column j vs ≡ₚ column j vs') by (unfold column; by rewrite Hperm).
  rewrite Hcol in Hx, Hy. rewrite <- Hcol in Hx', Hy'.
  pose proof (Hlow' x Hx). pose proof (Hlow x' Hx').
  pose proof (Hup' y Hy). pose proof (Hup y' Hy'). split; Lqa.lra.
Qed.

Lemma X4_extremes_do_not_depend_on_order_witness :
  ∃ h', add_all (new 2) (rev two_tuples) = Ok h' ∧
    ∃ mn mx mn' mx', extremes two_tuples_histogram !! 0%nat = Some (mn, mx) ∧
                     extremes h' !! 0%nat = Some (mn', mx') ∧
                     mn == mn' ∧ mx == mx'.
Proof.
  eexists. split; [vm_compute; reflexivity|].
  eapply (X4_extremes_do_not_depend_on_order 2 two_tuples (rev two_tuples));
    [apply Permutation_rev|exact finite_two_tuples|vm_compute; reflexivity
    |vm_compute; reflexivity|lia].
Defined.

(** *** The checks of [bin_data] *)

Lemma check_axis_rejected (h : Histogram) binstyles (j : nat) (t : N) :
  axis_rejected h binstyles j →
  check_axis (extremes h) binstyles j t = Err (rejection binstyles j).
Proof.
  unfold axis_rejected, check_axis, rejection, zero_span.
  destruct (binstyles !! j) as [[bs|]|]; [|done..].
  intros [H0|[H1 Hz]].
  - by rewrite H0.
  - destruct (N.eqb_spec (nbins bs) 0); [lia|].
    apply Qeq_bool_iff in Hz. rewrite Hz.
    destruct (N.eqb_spec (nbins bs) 1); [lia|done].
Qed.

Lemma check_loop_first_rejected (h : Histogram) binstyles
    (n start : nat) (t : N) (j : nat) :
  (start ≤ j < start + n)%nat → axis_rejected h binstyles j →
  (∀ i, (start ≤ i < j)%nat → ¬ axis_rejected h binstyles i) →
  for_loop_from start n (check_axis (extremes h) binstyles) t
  = Err (rejection binstyles j).
Proof.
  revert start t. induction n as [|n IH]; intros start t Hj Hrej Hbefore; [lia|].
  cbn [for_loop_from]. destruct (decide (j = start)) as [->|Hne].
  - by rewrite check_axis_rejected.
  - destruct (check_axis_Ok (extremes h) binstyles start t) as [t' Ht'].
    { destruct (axis_accepted_or_rejected h binstyles start) as [|Hr]; [done|].
      destruct (Hbefore start); [lia|done]. }
    rewrite Ht'. cbn [rbind]. apply IH; [lia|done|].
    intros i Hi. apply Hbefore. lia.
Qed.

(** X5.  On a histogram that is not binned, [bin_data] first compares the
    number of styles with the dimensionality (invalid-argument exception);
    then it reports the rejected axis of lowest index [j], with the
    exception of the check that axis fails: no style, no bin, or more than
    one bin on a zero span (runtime-error exceptions). *)
Theorem X5_bin_data_reports_first_rejected_axis
    (h : Histogram) (binstyles : list (option BinStyle)) :
  haveBinned h = false →
  (length binstyles ≠ ndim h →
   bin_data h binstyles = Err IncorrectNumberOfStyles) ∧
  (length binstyles = ndim h →
   ∀ j, (j < ndim h)%nat → axis_rejected h binstyles j →
        (∀ i, (i < j)%nat → ¬ axis_rejected h binstyles i) →
        bin_data h binstyles = Err (rejection binstyles j) ∧
        exception_class (rejection binstyles j) = runtime_error).
Proof.
  intros Hb. unfold bin_data. rewrite Hb. split.
  - intros Hlen%Nat.eqb_neq. by rewrite Hlen.
  - intros Hlen%Nat.eqb_eq j Hj Hrej Hbefore. rewrite Hlen. cbn [negb].
    unfold for_loopM.
    rewrite (check_loop_first_rejected h binstyles (ndim h) 0 1 j);
      [|lia|done|intros i Hi; apply Hbefore; lia].
    split; [done|]. unfold rejection.
    by destruct (binstyles !! j) as [[bs|]|]; [destruct (nbins bs =? 0)%N|..].
Qed.

Lemma X5_bin_data_reports_first_rejected_axis_witness :
  bin_data two_tuples_histogram [Some (BinLinear 2)] = Err IncorrectNumberOfStyles ∧
  bin_data two_tuples_histogram [Some (BinLinear 2); None] = Err (NoBinStyle 1) ∧
  bin_data two_tuples_histogram [Some (BinLinear 0); None] = Err NoBins.
Proof.
  pose proof (X5_bin_data_reports_first_rejected_axis two_tuples_histogram) as H.
  split; [|split].
  - apply (H [Some (BinLinear 2)]); [reflexivity|cbn; lia].
  - destruct (H [Some (BinLinear 2); None] eq_refl) as [_ Hfirst].
    destruct (Hfirst eq_refl 1%nat) as [Heq _]; [cbn; lia|exact I| |exact Heq].
    intros [|i] Hi; [|lia].
    intros [H0|[_ Hz]]; [discriminate|vm_compute in Hz; discriminate].
  - destruct (H [Some (BinLinear 0); None] eq_refl) as [_ Hfirst].
    destruct (Hfirst eq_refl 0%nat) as [Heq _]; [cbn; lia|by left| |exact Heq].
    intros i Hi. lia.
Defined.

(** *** What [bin_data] leaves behind *)

(** The count the first loop accumulates over the axes
    [start .. start + n - 1]. *)
Lemma check_loop_total ext binstyles (n start : nat) (t t' : N) :
  for_loop_from start n (check_axis ext binstyles) t = Ok t' →
  (t' mod 2 ^ 64 =
   (t * bins_product (take n (drop start binstyles))) mod 2 ^ 64)%N ∧
  ((t < 2 ^ 64)%N → (t' < 2 ^ 64)%N).
Proof.
  revert start t. induction n as [|n IH]; intros start t; cbn [for_loop_from].
  - intros [= <-]. rewrite take_0. cbn. by rewrite N.mul_1_r.
  - destruct (check_axis ext binstyles start t) as [t1|e] eqn:Hc; [|done].
    cbn [rbind]. intros Hrest. destruct (IH _ _ Hrest) as [Hmod Hlt].
    unfold check_axis in Hc.
    destruct (binstyles !! start) as [[bs|]|] eqn:Hbs; [|done..].
    destruct (nbins bs =? 0)%N; [done|].
    destruct (_ && _); [done|]. injection Hc as <-.
    rewrite (drop_S _ _ _ Hbs), firstn_cons. cbn [bins_product fold_right].
    fold (bins_product (take n (drop (S start) binstyles))).
    split.
    + rewrite Hmod. unfold size_t_mul. rewrite N.Div0.mul_mod_idemp_l.
      f_equal. lia.
    + intros _. apply Hlt. unfold size_t_mul. by apply N.mod_lt.
Qed.

(** X6.  When [bin_data] returns, the histogram has one row of bin values
    per axis, the row of an axis having as many entries as its style has
    bins; [binned_data] has as many entries as the product of the bin counts
    reduced modulo 2^64 (the product is taken in [std::size_t]), all of them
    0 on a histogram that held no counts; the tuples, the extremes and the
    dimensionality are untouched. *)
Theorem X6_bin_data_shape
    (h h' : Histogram) (binstyles : list (option BinStyle)) :
  bin_data h binstyles = Ok h' →
  length (bin_value h') = ndim h ∧
  (∀ j bs, binstyles !! j = Some (Some bs) →
     ∃ row, bin_value h' !! j = Some row ∧ length row = N.to_nat (nbins bs)) ∧
  length (binned_data h') = N.to_nat (bins_product binstyles mod 2 ^ 64) ∧
  (binned_data h = [] →
   binned_data h' = replicate (N.to_nat (bins_product binstyles mod 2 ^ 64)) 0) ∧
  data h' = data h ∧ extremes h' = extremes h ∧ ndim h' = ndim h.
Proof.
  intros Hbin.
  apply bin_data_Ok in Hbin
    as (_ & Hlen & _ & Hn & Hd & Hext & Hbv & t & Ht & Hbd).
  unfold for_loopM in Ht.
  destruct (check_loop_total _ _ _ _ _ _ Ht) as [Hmod Hlt].
  rewrite drop_0, take_ge, N.mul_1_l in Hmod by lia.
  rewrite N.mod_small in Hmod by (apply Hlt; by compute).
  subst t. split; [by rewrite Hbv, set_bin_value_length, length_resize|].
  split; [|split; [|split]]; try done.
  - intros j bs Hbs.
    assert (Hj : (j < ndim h)%nat).
    { rewrite <- Hlen. eapply lookup_lt_Some; eauto. }
    eexists. split.
    + rewrite Hbv. apply (set_bin_value_loop _ _ _ _ j bs); [done| |done].
      by rewrite length_resize.
    + apply bin_values_length.
  - by rewrite Hbd, length_resize.
  - intros Hnil. by rewrite Hbd, Hnil, resize_nil.
Qed.

Lemma X6_bin_data_shape_witness :
  length (bin_value two_tuples_binned) = 2%nat ∧
  length (binned_data two_tuples_binned) = 6%nat ∧
  binned_data two_tuples_binned = replicate 6 0.
Proof.
  destruct (X6_bin_data_shape two_tuples_histogram two_tuples_binned two_styles)
    as (Hrows & _ & Hlen & Hzero & _); [vm_compute; reflexivity|].
  split; [exact Hrows|]. split; [exact Hlen|]. by apply Hzero.
Defined.

(** With 2^32 bins on each of two axes the product wraps to 0 and
    [binned_data] is left empty. *)
Example bins_product_wraps :
  (bins_product [Some (BinLinear (2 ^ 32)); Some (BinLinear (2 ^ 32))]
   mod 2 ^ 64 = 0)%N.
Proof. reflexivity. Qed.

(** The rows the second loop of [bin_data] leaves: the bin values of the
    axes it went through that have a style, the rows it found elsewhere. *)
Lemma set_bin_value_lookup ext binstyles (n : nat) (bv : list (list Q)) (j : nat) :
  for_loop n (set_bin_value ext binstyles) bv !! j =
  match binstyles !! j with
  | Some (Some bs) =>
      if decide (j < n ∧ j < length bv)%nat
      then Some (bin_values (mask bs (fst (ext_at ext j)))
                   (mask bs (snd (ext_at ext j)))
                   ((mask bs (snd (ext_at ext j)) - mask bs (fst (ext_at ext j)))
                    / of_size (nbins bs)) bs)
      else bv !! j
  | _ => bv !! j
  end.
Proof.
  induction n as [|n IH].
  - rewrite for_loop_0. destruct (binstyles !! j) as [[bs|]|]; [|done..].
    destruct (decide _) as [[? _]|]; [lia|done].
  - rewrite for_loop_S. unfold set_bin_value at 1.
    destruct (binstyles !! n) as [[bs'|]|] eqn:Hn.
    + rewrite list_lookup_insert, set_bin_value_length.
      destruct (decide (n = j ∧ n < length bv)%nat) as [[-> Hl]|Hno].
      * rewrite Hn. by rewrite decide_True by lia.
      * rewrite IH. destruct (binstyles !! j) as [[bs|]|] eqn:Hbs; [|done..].
        destruct (decide (j < n ∧ _)%nat), (decide (j < S n ∧ _)%nat);
          done || lia.
    + rewrite IH. destruct (binstyles !! j) as [[bs|]|] eqn:Hbs; [|done..].
      destruct (decide (j < n ∧ _)%nat), (decide (j < S n ∧ _)%nat);
        try done; try lia.
      assert (j = n) by lia. congruence.
    + rewrite IH. destruct (binstyles !! j) as [[bs|]|] eqn:Hbs; [|done..].
      destruct (decide (j < n ∧ _)%nat), (decide (j < S n ∧ _)%nat);
        try done; try lia.
      assert (j = n) by lia. congruence.
Qed.

(** X7.  [bin_data] can be called again on the histogram it returned (the
    flag [haveBinned] is left as it was) and then changes nothing: with the
    same styles the second call returns the same histogram. *)
Theorem X7_bin_data_again_changes_nothing
    (h h' : Histogram) (binstyles : list (option BinStyle)) :
  bin_data h binstyles = Ok h' → bin_data h' binstyles = Ok h'.
Proof.
  intros Hbin.
  pose proof (bin_data_Ok _ _ _ Hbin)
    as (Hb & Hlen & Hb' & Hn & Hd & Hext & Hbv & t & Ht & Hbd).
  unfold bin_data. rewrite Hb', Hb, Hn, Hext.
  apply Nat.eqb_eq in Hlen. rewrite Hlen. cbn [negb]. rewrite Ht. cbn [rbind].
  f_equal. destruct h' as [b' n' d' e' bv' bd']. cbn in *. subst b' n' e'.
  f_equal; [congruence| |].
  - subst bv'. rewrite resize_all_alt
      by (by rewrite set_bin_value_length, length_resize).
    apply list_eq. intros j. rewrite !set_bin_value_lookup.
    rewrite set_bin_value_length.
    destruct (binstyles !! j) as [[bs|]|]; [|done..].
    destruct (decide (j < ndim h ∧ _)%nat); done.
  - subst bd'. by rewrite resize_idemp.
Qed.

Lemma X7_bin_data_again_changes_nothing_witness :
  bin_data two_tuples_histogram two_styles = Ok two_tuples_binned ∧
  bin_data two_tuples_binned two_styles = Ok two_tuples_binned.
Proof.
  split; [vm_compute; reflexivity|].
  apply (X7_bin_data_again_changes_nothing two_tuples_histogram).
  vm_compute; reflexivity.
Defined.

(** *** The order of the bin values *)

Lemma of_index_le (i k : nat) : (i ≤ k)%nat → of_index i <= of_index k.
Proof. intros H. unfold of_index. rewrite <- Zle_Qle. lia. Qed.

Lemma of_index_size (k : nat) (n : N) :
  (k ≤ N.to_nat n)%nat → of_index k <= of_size n.
Proof. intros H. unfold of_index, of_size. rewrite <- Zle_Qle. lia. Qed.

Lemma of_size_pos (n : N) : n ≠ 0%N → 0 < of_size n.
Proof.
  intros H. unfold of_size. change 0 with (inject_Z 0). rewrite <- Zlt_Qlt. lia.
Qed.

(** The ends of the bins in masked coordinates, for a masked range
    [[b0, b1]] that is not reversed. *)
Lemma bin_ends (b0 b1 : Q) (n : N) (i k : nat) :
  b0 <= b1 → n ≠ 0%N → (i ≤ k)%nat → (k ≤ N.to_nat n)%nat →
  b0 <= b0 + of_index i * ((b1 - b0) / of_size n) ∧
  b0 + of_index i * ((b1 - b0) / of_size n)
    <= b0 + of_index k * ((b1 - b0) / of_size n) ∧
  b0 + of_index k * ((b1 - b0) / of_size n) <= b1.
Proof.
  intros Hb Hn Hik Hkn.
  pose proof (of_size_pos n Hn) as Hpos.
  assert (Hw : 0 <= (b1 - b0) / of_size n).
  { apply Qle_shift_div_l; [done|]. Lqa.lra. }
  assert (H0 : 0 <= of_index i).
  { change 0 with (of_index 0). apply of_index_le. lia. }
  pose proof (of_index_le i k Hik) as Hle.
  pose proof (of_index_size k n Hkn) as Hsz.
  assert (Hfull : of_size n * ((b1 - b0) / of_size n) == b1 - b0).
  { apply Qmult_div_r. Lqa.lra. }
  pose proof (Qmult_le_compat_r _ _ _ H0 Hw) as H1.
  pose proof (Qmult_le_compat_r _ _ _ Hle Hw) as H2.
  pose proof (Qmult_le_compat_r _ _ _ Hsz Hw) as H3.
  repeat split; Lqa.lra.
Qed.

(** X8.  In exact arithmetic (finite doubles read as rationals, rounding and
    overflow left out): for a style whose mask and inverse mask do not
    decrease, on an axis whose stored minimum is at most its maximum, the
    bin values [bin_data] stores are in order (the value of a bin is at most
    that of every later bin) and lie between [invmask(mask(min))] and
    [invmask(mask(max))].  This is a property of the formula the code
    evaluates; where the doubles overflow it fails
    ([HistogramDoublesFacts.coordinates_where_the_span_overflows]). *)
Theorem X8_bin_values_in_order_and_in_range
    (h h' : Histogram) (binstyles : list (option BinStyle))
    (j : nat) (bs : BinStyle) (mn mx : Q) :
  bin_data h binstyles = Ok h' →
  binstyles !! j = Some (Some bs) →
  extremes h !! j = Some (mn, mx) → mn <= mx →
  nondecreasing (mask bs) → nondecreasing (invmask bs) →
  ∃ row, bin_value h' !! j = Some row ∧
    (∀ i k ci ck, (i ≤ k)%nat → row !! i = Some ci → row !! k = Some ck →
                  ci <= ck) ∧
    (∀ i c, row !! i = Some c →
            invmask bs (mask bs mn) <= c ∧ c <= invmask bs (mask bs mx)).
Proof.
  intros Hbin Hbs Hext Hmm Hmask Hinv.
  apply bin_data_Ok in Hbin as (_ & Hlen & _ & _ & _ & _ & Hbv & _).
  assert (Hj : (j < ndim h)%nat).
  { rewrite <- Hlen. eapply lookup_lt_Some; eauto. }
  eexists. split.
  { rewrite Hbv. apply (set_bin_value_loop _ _ _ _ j bs); [done| |done].
    by rewrite length_resize. }
  rewrite (ext_at_lookup _ _ _ Hext). cbn [fst snd].
  set (b0 := mask bs mn). set (b1 := mask bs mx).
  assert (Hb : b0 <= b1) by (by apply Hmask).
  assert (Hentry : ∀ i c,
             bin_values b0 b1 ((b1 - b0) / of_size (nbins bs)) bs !! i = Some c →
             (i < N.to_nat (nbins bs))%nat ∧
             c = 0.5 * (invmask bs (b0 + of_index i * ((b1 - b0) / of_size (nbins bs)))
                        + invmask bs (b0 + of_index (i + 1)
                                           * ((b1 - b0) / of_size (nbins bs))))).
  { intros i c Hc.
    assert (Hi : (i < N.to_nat (nbins bs))%nat).
    { rewrite <- (bin_values_length b0 b1 ((b1 - b0) / of_size (nbins bs)) bs).
      eapply lookup_lt_Some; eauto. }
    split; [done|]. rewrite bin_values_lookup in Hc by done. by injection Hc. }
  split.
  - intros i k ci ck Hik Hi Hk.
    apply Hentry in Hi as [Hi ->]. apply Hentry in Hk as [Hk ->].
    assert (Hn : nbins bs ≠ 0%N) by lia.
    destruct (bin_ends b0 b1 (nbins bs) i k Hb Hn) as (_ & Hl & _); [lia..|].
    destruct (bin_ends b0 b1 (nbins bs) (i + 1) (k + 1) Hb Hn) as (_ & Hu & _);
      [lia..|].
    apply Hinv in Hl, Hu. Lqa.lra.
  - intros i c Hi. apply Hentry in Hi as [Hi ->].
    assert (Hn : nbins bs ≠ 0%N) by lia.
    destruct (bin_ends b0 b1 (nbins bs) i (i + 1) Hb Hn) as (Hl0 & Hlu & Hu1);
      [lia..|].
    pose proof (Hinv _ _ Hl0) as H1. pose proof (Hinv _ _ Hlu) as H2.
    pose proof (Hinv _ _ Hu1) as H3. split; Lqa.lra.
Qed.

Lemma BinLinear_nondecreasing (n : N) :
  nondecreasing (mask (BinLinear n)) ∧ nondecreasing (invmask (BinLinear n)).
Proof. split; intros a b Hab; exact Hab. Qed.

Lemma X8_bin_values_in_order_and_in_range_witness :
  ∃ row, bin_value three_values_binned !! 0%nat = Some row ∧
    (∀ i k ci ck, (i ≤ k)%nat → row !! i = Some ci → row !! k = Some ck →
                  ci <= ck) ∧
    (∀ i c, row !! i = Some c → 0.1 <= c ∧ c <= 0.9).
Proof.
  apply (X8_bin_values_in_order_and_in_range three_values_histogram
           three_values_binned [Some (BinLinear 4)] 0 (BinLinear 4) 0.1 0.9).
  - vm_compute; reflexivity.
  - reflexivity.
  - reflexivity.
  - vm_compute; discriminate.
  - apply BinLinear_nondecreasing.
  - apply BinLinear_nondecreasing.
Defined.

End HistogramMore.

(** ** More on the simulator *)

Module SimulatorMore.
Import Simulator SimulatorNotions SimulatorFacts.
Section WithModel.
Context {Engine Model : Type} `{!SimulateModelOps Engine Model}.

(** What a successful [setObservable] did. *)
Lemma setObservable_Ok (s s' : Simulator) (j : nat) (key : ObservableIndex) :
  setObservable s j key = Ok s' →
  ∃ func, getObservableFunction (model s) key = Some func ∧
          j ≤ length (obs_functions s) ∧ model s' = model s ∧
          obs_functions s' =
            if (j <? length (obs_functions s))%nat
            then <[j := func]> (obs_functions s)
            else obs_functions s ++ [func].
Proof.
  unfold setObservable.
  destruct (Nat.ltb_spec (length (obs_functions s)) j); [done|].
  destruct (getObservableFunction (model s) key) as [func|]; [|done].
  intros Hs'. exists func. split; [done|]. split; [done|].
  by destruct (j <? length (obs_functions s))%nat; injection Hs' as <-.
Qed.

(** Columns bound in turn from the end of the list are appended. *)
Lemma bind_columns_append (keys : list ObservableIndex) (s : Simulator)
    (funcs : list ObservableFunction) :
  Forall2 (λ key f, getObservableFunction (model s) key = Some f) keys funcs →
  bind_columns s (length (obs_functions s)) keys
  = Ok {| model := model s; obs_functions := obs_functions s ++ funcs |}.
Proof.
  revert s funcs. induction keys as [|key keys IH]; intros s funcs Hall.
  - apply Forall2_nil_inv_l in Hall as ->. rewrite app_nil_r. by destruct s.
  - apply Forall2_cons_inv_l in Hall as (f & funcs' & Hf & Hrest & ->).
    cbn [bind_columns]. unfold setObservable. rewrite Nat.ltb_irrefl, Hf. cbn [rbind].
    specialize (IH {| model := model s; obs_functions := obs_functions s ++ [f] |}
                  funcs').
    cbn [model obs_functions] in IH. rewrite length_app in IH. cbn [length] in IH.
    replace (length (obs_functions s) + 1)%nat
      with (S (length (obs_functions s))) in IH by lia.
    rewrite IH by done. by rewrite <- app_assoc.
Qed.

Lemma bind_columns_app (keys1 keys2 : list ObservableIndex) (s : Simulator)
    (j : nat) :
  bind_columns s j (keys1 ++ keys2) =
  rbind (bind_columns s j keys1)
    (λ s', bind_columns s' (j + length keys1) keys2).
Proof.
  revert s j. induction keys1 as [|key keys1 IH]; intros s j; cbn.
  - by rewrite Nat.add_0_r.
  - destruct (setObservable s j key) as [s1|e]; [|done]. cbn [rbind].
    rewrite IH. by replace (S j + length keys1)%nat with (j + S (length keys1))%nat by lia.
Qed.

(** X9.  On a new simulator, [setObservable] called for a list of
    observables on the columns 0, 1, 2, ... in turn binds, when the model
    supports them all, exactly their functions in that order; it ends in
    [IncompatibleObservable] at the first observable the model does not
    support, and in [std::out_of_range] when the first column index is
    not 0. *)
Theorem X9_columns_bound_in_turn (m : Model) (keys : list ObservableIndex) :
  (∀ funcs,
     Forall2 (λ key f, getObservableFunction m key = Some f) keys funcs →
     bind_columns (new m) 0 keys = Ok {| model := m; obs_functions := funcs |}) ∧
  (∀ before key after funcs,
     keys = before ++ key :: after →
     Forall2 (λ key f, getObservableFunction m key = Some f) before funcs →
     getObservableFunction m key = None →
     bind_columns (new m) 0 keys = Err IncompatibleObservable) ∧
  (∀ j, keys ≠ [] → 0 < j → bind_columns (new m) j keys = Err std_out_of_range).
Proof.
  split; [|split].
  - intros funcs Hall. by apply (bind_columns_append keys (new m) funcs).
  - intros before key after funcs -> Hall Hno.
    rewrite bind_columns_app.
    pose proof (bind_columns_append before (new m) funcs Hall) as Hpre.
    cbn [new obs_functions length app model] in Hpre.
    rewrite Hpre. cbn [rbind bind_columns].
    unfold setObservable. cbn [model obs_functions].
    rewrite (Forall2_length _ _ _ Hall), Nat.add_0_l, Nat.ltb_irrefl.
    by rewrite Hno.
  - intros j Hne Hj. destruct keys as [|key keys']; [done|].
    cbn. unfold setObservable. cbn. by destruct j; [lia|].
Qed.

(** X10.  A column bound by [setObservable] is the one [simulate] then
    reports: on the simulator the call returns there is at least one
    column, and whenever [simulate] returns a vector its entry [j] is the
    value of the function of [key] on the parameter vector drawn, the
    entries of the other columns being those of their earlier functions. *)
Theorem X10_bound_column_is_simulated
    (s s' : Simulator) (j : nat) (key : ObservableIndex)
    (func : ObservableFunction) (r : Engine) (vals : list Q) :
  setObservable s j key = Ok s' →
  getObservableFunction (model s) key = Some func →
  fst (simulate s' r) = Ok vals →
  obs_functions s' ≠ [] ∧
  snd (simulate s' r) = snd (generateParameters (model s) r) ∧
  (∃ x, vals !! j = Some x ∧
        func (fst (generateParameters (model s) r)) = Ok x) ∧
  (∀ i f, i ≠ j → obs_functions s !! i = Some f →
          ∃ y, vals !! i = Some y ∧
               f (fst (generateParameters (model s) r)) = Ok y).
Proof.
  intros Hset Hfunc Hsim.
  apply setObservable_Ok in Hset as (func' & Hfunc' & Hj & Hm & Hobs).
  rewrite Hfunc in Hfunc'. injection Hfunc' as <-.
  assert (Hne : obs_functions s' ≠ []).
  { rewrite Hobs. destruct (Nat.ltb_spec j (length (obs_functions s))).
    - intros Hnil. apply (f_equal length) in Hnil.
      rewrite length_insert in Hnil. cbn in Hnil. lia.
    - by destruct (obs_functions s). }
  rewrite (simulate_columns s' r Hne), Hm in *. cbn [fst snd] in *.
  apply eval_all_Ok in Hsim. split; [done|]. split; [done|].
  assert (Hat : obs_functions s' !! j = Some func).
  { rewrite Hobs. destruct (Nat.ltb_spec j (length (obs_functions s))).
    - by apply list_lookup_insert_eq.
    - rewrite lookup_app_r by lia.
      by replace (j - length (obs_functions s))%nat with 0%nat by lia. }
  split.
  - destruct (Forall2_lookup_l _ _ _ _ _ Hsim Hat) as (x & Hx & Hfx). by exists x.
  - intros i f Hi Hf.
    assert (Hat' : obs_functions s' !! i = Some f).
    { rewrite Hobs. destruct (Nat.ltb_spec j (length (obs_functions s))).
      - by rewrite list_lookup_insert_ne.
      - by apply lookup_app_l_Some. }
    destruct (Forall2_lookup_l _ _ _ _ _ Hsim Hat') as (y & Hy & Hfy). by exists y.
Qed.

(** X11.  Binding a column again overrides the earlier binding without a
    trace: after [setObservable j key1] has returned, [setObservable j key2]
    gives what it would have given without the first call (the same
    simulator, or the same exception). *)
Theorem X11_last_binding_wins
    (s s1 : Simulator) (j : nat) (key1 key2 : ObservableIndex) :
  setObservable s j key1 = Ok s1 →
  setObservable s1 j key2 = setObservable s j key2.
Proof.
  intros Hset. apply setObservable_Ok in Hset as (f1 & _ & Hj & Hm & Hobs).
  unfold setObservable. rewrite Hm, Hobs.
  destruct (Nat.ltb_spec j (length (obs_functions s))) as [Hlt|Hge].
  - rewrite length_insert.
    destruct (Nat.ltb_spec (length (obs_functions s)) j); [lia|].
    destruct (getObservableFunction (model s) key2) as [f2|]; [|done].
    destruct (Nat.ltb_spec j (length (obs_functions s))); [|lia].
    by rewrite list_insert_insert_eq.
  - assert (j = length (obs_functions s)) as -> by lia.
    rewrite length_app. cbn [length].
    destruct (Nat.ltb_spec (length (obs_functions s) + 1)
                (length (obs_functions s))); [lia|].
    rewrite Nat.ltb_irrefl.
    destruct (getObservableFunction (model s) key2) as [f2|]; [|done].
    destruct (Nat.ltb_spec (length (obs_functions s))
                (length (obs_functions s) + 1)); [|lia].
    f_equal. f_equal.
    rewrite insert_app_r_alt by lia.
    by replace (length (obs_functions s) - length (obs_functions s))%nat
      with 0%nat by lia.
Qed.

End WithModel.

Import TestModel.

Lemma X9_columns_bound_in_turn_witness :
  bind_columns (Engine := nat) (new test_model) 0 ["BasicObs1"; "BasicObs2"]
    = Ok two_columns ∧
  bind_columns (Engine := nat) (new test_model) 0
    ["BasicObs1"; "BasicObs4"; "BasicObs2"] = Err IncompatibleObservable ∧
  bind_columns (Engine := nat) (new test_model) 1 ["BasicObs1"]
    = Err std_out_of_range.
Proof.
  split; [|split].
  - apply (X9_columns_bound_in_turn (Engine := nat) test_model
             ["BasicObs1"; "BasicObs2"]).
    repeat constructor.
  - apply (X9_columns_bound_in_turn (Engine := nat) test_model
             ["BasicObs1"; "BasicObs4"; "BasicObs2"])
      with ["BasicObs1"] "BasicObs4" ["BasicObs2"]
           [λ params, Ok (nth 0 params 0%Q)];
      [reflexivity|repeat constructor|reflexivity].
  - apply (X9_columns_bound_in_turn (Engine := nat) test_model ["BasicObs1"]);
      [discriminate|lia].
Defined.

Lemma X10_bound_column_is_simulated_witness :
  ∃ s', setObservable (Engine := nat) two_columns 0 "BasicObs2" = Ok s' ∧
        ∃ x, [constvalue; constvalue] !! 0%nat = Some x ∧
             (λ _ : list Q, Ok constvalue : result sim_exception Q) [distvalue]
             = Ok x.
Proof.
  eexists. split; [reflexivity|].
  eapply (X10_bound_column_is_simulated (Engine := nat) two_columns _ 0
            "BasicObs2" (λ _, Ok constvalue) 0%nat [constvalue; constvalue]);
    reflexivity.
Defined.

Lemma X11_last_binding_wins_witness :
  ∃ s1, setObservable (Engine := nat) two_columns 2 "BasicObs3" = Ok s1 ∧
        setObservable (Engine := nat) s1 2 "BasicObs1"
        = setObservable (Engine := nat) two_columns 2 "BasicObs1".
Proof.
  eexists. split; [reflexivity|].
  by apply (X11_last_binding_wins (Engine := nat) two_columns _ 2 "BasicObs3").
Defined.

End SimulatorMore.

(** ** More on the factory *)

Module ModelMore.
Import Model ModelFacts.
Section WithEngine.
Context {Engine : Type}.
Implicit Types (proto : SimulateModel Engine).

Lemma fold_left_emplace_size (names : list string) (acc : gset string) :
  size (fold_left (λ acc iter, {[to_lower iter]} ∪ acc) names acc)
  ≤ size acc + length names.
Proof.
  revert acc. induction names as [|n names IH]; intros acc; cbn [fold_left length].
  - lia.
  - etrans; [apply IH|].
    pose proof (size_union_alt {[to_lower n]} acc) as Hsize.
    assert (Hsub : size (acc ∖ {[to_lower n]}) ≤ size acc)
      by (apply subseteq_size, subseteq_difference_l; reflexivity).
    rewrite size_singleton in Hsize. lia.
Qed.

(** X12.  [makeFactory] caches the declared names in their order, leaves
    as names still to be specified exactly the lowercase forms of the
    declared names (names that differ only in case give one entry, so there
    are at most as many as declared names), gives the model
    [get_num_parameters] distribution handles, and keeps the names, the
    types and the submodels of the model. *)
Theorem X12_makeFactory_leaves_every_name_to_specify proto :
  model_names (makeFactory proto) = get_names proto ∧
  (∀ x, x ∈ remaining_names (makeFactory proto) ↔
        ∃ name, name ∈ get_names proto ∧ x = to_lower name) ∧
  size (remaining_names (makeFactory proto)) ≤ length (get_names proto) ∧
  length (dists (model (makeFactory proto))) = get_num_parameters proto ∧
  get_names (model (makeFactory proto)) = get_names proto ∧
  getModelType (model (makeFactory proto)) = getModelType proto ∧
  getSubmodelType (model (makeFactory proto)) = getSubmodelType proto ∧
  submodels (model (makeFactory proto)) = submodels proto.
Proof.
  split; [done|]. split; [apply makeFactory_remaining|]. split.
  - unfold makeFactory. cbn [remaining_names].
    etrans; [apply fold_left_emplace_size|]. rewrite size_empty. lia.
  - split; [|done]. unfold makeFactory. cbn [model dists]. apply length_resize.
Qed.

End WithEngine.

(** Two declared names that differ only in case leave one name to
    specify. *)
Example makeFactory_same_name_twice :
  size (remaining_names
          (makeFactory (mkSimulateModel (Engine := nat)
                          ["Gamma"; "gamma"] [] "Channel" None [])))
  = 1%nat.
Proof. reflexivity. Qed.

End ModelMore.

(** ** The distributions of a conductance model *)

Module MainSimulatorFacts.
Import MainSimulator.
Section WithDistribution.
Context {Distribution : Type}.
Implicit Types (parameters : gmap string Distribution)
               (m : ConductanceModel Distribution).


(** Goals about the lookups of one model, after the case analysis on the
    parameters. *)
Ltac split_elem H :=
  repeat (apply elem_of_cons in H as [H|H]); [..|by apply elem_of_nil in H].
Ltac missing Hall name :=
  let Hin := fresh in
  assert (Hin : name ∈ (["gammal"; "gammar"; "epsilon"] : list string)
                ∨ name ∈ (["gamma"; "epsilon"] : list string))
    by (rewrite !elem_of_cons; tauto);
  first [ destruct (Hall name) as [? ?]; [rewrite !elem_of_cons; tauto|];
          congruence ].
Ltac solve_lookups :=
  try done;
  match goal with
  | |- (∃ _, Err _ = Ok _) → _ => intros [? [=]]
  | |- (∃ _, Ok _ = Ok _) → _ =>
      intros _; eexists; split; [reflexivity|];
      let name := fresh "name" in let Hin := fresh "Hin" in
      intros name Hin; split_elem Hin; subst name; eauto
  | |- _ → ∃ _, Ok _ = Ok _ => intros _; by eexists
  | |- (∃ _, Some _ = Some _ ∧ _) → ∃ _, Err _ = Ok _ =>
      let Hall := fresh "Hall" in
      intros (? & [= <-] & Hall); exfalso;
      first [ missing Hall "gamma" | missing Hall "epsilon"
            | missing Hall "gammal" | missing Hall "gammar" ]
  | |- (∃ _, None = Some _ ∧ _) → _ => intros (? & [=] & _)
  | |- ∀ _, Ok _ = Ok _ → _ =>
      let Hin := fresh "Hin" in
      intros ? [= <-]; split; [reflexivity|];
      intros ? ? Hin; cbn [holds] in Hin; split_elem Hin;
      injection Hin as -> ->; assumption
  | |- _ ↔ _ => split; solve [done | intros [=]]
  | _ => idtac
  end.

Lemma at_or_throw_Ok parameters (name shown : string) (d : Distribution) :
  at_or_throw parameters name shown = Ok d ↔ parameters !! name = Some d.
Proof.
  unfold at_or_throw. destruct (parameters !! name); split; congruence.
Qed.

(** X13.  [set_distributions] returns a model exactly when the name is one
    of the three it knows and every distribution that model looks up is
    among the parameters; the model then holds the distributions found
    under those names.  An unknown name gives the unrecognized-model
    exception, whatever the parameters. *)
Theorem X13_set_distributions_needs_every_name (str : string) parameters :
  (is_Ok (set_distributions str parameters) ↔
   ∃ names, required str = Some names ∧
            ∀ name, name ∈ names → is_Some (parameters !! name)) ∧
  (∀ m, set_distributions str parameters = Ok m →
        required str = Some (fst <$> holds m) ∧
        ∀ name d, (name, d) ∈ holds m → parameters !! name = Some d) ∧
  (required str = None ↔
   set_distributions str parameters = Err UnrecognizedModel).
Proof.
  unfold set_distributions, required, at_or_throw, is_Ok.
  destruct (String.eqb str "symmetricvoltageindependentmodel");
    [|destruct (String.eqb str "symmetricvoltageonesitemodel");
      [|destruct (String.eqb str "asymmetricvoltageindependentmodel")]].
  - destruct (parameters !! "gamma") as [g|] eqn:Hg;
      destruct (parameters !! "epsilon") as [e|] eqn:He; cbn [rbind];
      (split; [split|split]); solve_lookups.
  - destruct (parameters !! "gamma") as [g|] eqn:Hg;
      destruct (parameters !! "epsilon") as [e|] eqn:He; cbn [rbind];
      (split; [split|split]); solve_lookups.
  - destruct (parameters !! "gammal") as [gl|] eqn:Hgl;
      destruct (parameters !! "gammar") as [gr|] eqn:Hgr;
      destruct (parameters !! "epsilon") as [e|] eqn:He; cbn [rbind];
      (split; [split|split]); solve_lookups.
  - split; [split|split]; solve_lookups.
Qed.

(** X14.  When a distribution is missing, the exception names the first
    missing one in the order of the lookups (gamma before epsilon; gammaL,
    gammaR, epsilon), with the capital letter of "gammaL" and "gammaR"
    although the key looked up is in lower case. *)
Theorem X14_first_missing_distribution_is_named (str : string) parameters
    (names before after : list string) (name : string) :
  required str = Some names →
  names = before ++ name :: after →
  (∀ n, n ∈ before → is_Some (parameters !! n)) →
  parameters !! name = None →
  set_distributions str parameters = Err (MustBeSpecified (shown_as name)).
Proof.
  unfold set_distributions, required, at_or_throw.
  intros Hreq Hnames Hbefore Hname.
  destruct (String.eqb str "symmetricvoltageindependentmodel");
    [|destruct (String.eqb str "symmetricvoltageonesitemodel");
      [|destruct (String.eqb str "asymmetricvoltageindependentmodel")]];
    [..|discriminate]; injection Hreq as <-.
  1,2: destruct before as [|b0 [|b1 [|b2 before]]];
    [ injection Hnames as <- _; by rewrite Hname
    | injection Hnames as <- <- _;
      destruct (Hbefore "gamma") as [? ->]; [apply list_elem_of_here|];
      cbn [rbind]; by rewrite Hname
    | by destruct after
    | discriminate Hnames ].
  destruct before as [|b0 [|b1 [|b2 [|b3 before]]]].
  - injection Hnames as <- _. by rewrite Hname.
  - injection Hnames as <- <- _.
    destruct (Hbefore "gammal") as [? ->]; [apply list_elem_of_here|].
    cbn [rbind]. by rewrite Hname.
  - injection Hnames as <- <- <- _.
    destruct (Hbefore "gammal") as [? ->]; [apply list_elem_of_here|].
    destruct (Hbefore "gammar") as [? ->];
      [apply list_elem_of_further, list_elem_of_here|].
    cbn [rbind]. by rewrite Hname.
  - by destruct after.
  - discriminate Hnames.
Qed.

End WithDistribution.

(** With both distributions given the symmetric model is made, the energy
    first as its constructor takes it; a further distribution is ignored. *)
Example set_distributions_symmetric :
  set_distributions (Distribution := nat) "symmetricvoltageindependentmodel"
    {[ "gamma" := 1%nat; "epsilon" := 2%nat; "a" := 3%nat ]}
  = Ok (SymmetricVoltageIndependentModel 2%nat 1%nat).
Proof. vm_compute. reflexivity. Qed.

Lemma X14_first_missing_distribution_is_named_witness :
  set_distributions (Distribution := nat) "asymmetricvoltageindependentmodel"
    {[ "gammal" := 1%nat; "epsilon" := 3%nat ]}
  = Err (MustBeSpecified "gammaR").
Proof.
  apply (X14_first_missing_distribution_is_named
           "asymmetricvoltageindependentmodel" _
           ["gammal"; "gammar"; "epsilon"] ["gammal"] ["epsilon"] "gammar").
  - reflexivity.
  - reflexivity.
  - intros n ->%list_elem_of_singleton. vm_compute. eauto.
  - vm_compute. reflexivity.
Defined.

End MainSimulatorFacts.

(** ** The voltage-independent model *)

Module VoltageIndependentFacts.
Import SymmetricVoltageIndependentModel.
Local Open Scope R_scope.

Lemma denominator_pos E eps gamma :
  gamma ≠ 0 → 0 < (E - eps) * (E - eps) + gamma * gamma.
Proof.
  intros Hg.
  assert (0 < gamma * gamma) by (destruct (Rdichotomy _ _ Hg); Lra.nra).
  pose proof (Rle_0_sqr (E - eps)) as Hs. unfold Rsqr in Hs. Lra.lra.
Qed.

Lemma transmission_bounds E eps gamma :
  gamma ≠ 0 → 0 < transmission E eps gamma <= 1.
Proof.
  intros Hg. unfold transmission.
  pose proof (denominator_pos E eps gamma Hg) as Hd.
  assert (Hgg : 0 < gamma * gamma) by (destruct (Rdichotomy _ _ Hg); Lra.nra).
  pose proof (Rle_0_sqr (E - eps)) as Hs. unfold Rsqr in Hs.
  split.
  - apply Rdiv_lt_0_compat; Lra.lra.
  - apply (Rmult_le_reg_r ((E - eps) * (E - eps) + gamma * gamma)); [exact Hd|].
    unfold Rdiv. rewrite Rmult_assoc, Rinv_l by Lra.lra. Lra.lra.
Qed.

Lemma transmission_scaled c gamma eps :
  gamma ≠ 0 → transmission (eps + c * gamma) eps gamma = / (1 + c * c).
Proof.
  intros Hg. unfold transmission.
  pose proof (denominator_pos (eps + c * gamma) eps gamma Hg).
  pose proof (Rle_0_sqr c) as Hs. unfold Rsqr in Hs.
  field. split; Lra.lra.
Qed.

Lemma atan_mean_value a b :
  a < b → ∃ c, a < c < b ∧ atan b - atan a = (b - a) / (1 + c * c).
Proof.
  intros Hab.
  destruct (MVT_cor2 atan (fun x => / (1 + x ^ 2)) a b Hab) as (c & Hc & Hin).
  { intros x _. apply derivable_pt_lim_atan. }
  exists c. split; [exact Hin|]. rewrite Hc. unfold Rdiv. simpl.
  rewrite Rmult_1_r. ring.
Qed.

(** X15.  For a coupling other than zero the transmission is a resonance
    at the channel energy: it lies in (0, 1], is 1 exactly at [E = eps],
    is 1/2 one coupling away from it on either side, is the same at equal
    distances on either side and for either sign of the coupling, and gets
    smaller as the energy moves away from the channel energy. *)
Theorem X15_transmission_is_a_resonance (E eps gamma : R) :
  gamma ≠ 0 →
  0 < transmission E eps gamma <= 1 ∧
  (transmission E eps gamma = 1 ↔ E = eps) ∧
  transmission (eps + gamma) eps gamma = 1 / 2 ∧
  transmission (eps - gamma) eps gamma = 1 / 2 ∧
  transmission (2 * eps - E) eps gamma = transmission E eps gamma ∧
  transmission E eps (- gamma) = transmission E eps gamma ∧
  (∀ E', Rabs (E - eps) < Rabs (E' - eps) →
         transmission E' eps gamma < transmission E eps gamma).
Proof.
  intros Hg.
  pose proof (denominator_pos E eps gamma Hg) as Hd.
  assert (Hgg : 0 < gamma * gamma) by (destruct (Rdichotomy _ _ Hg); Lra.nra).
  split; [by apply transmission_bounds|].
  split; [|split; [|split; [|split; [|split]]]].
  - unfold transmission. split.
    + intros H1. apply (Rmult_eq_compat_r ((E - eps) * (E - eps) + gamma * gamma)) in H1.
      unfold Rdiv in H1. rewrite Rmult_assoc, Rinv_l, Rmult_1_r, Rmult_1_l in H1 by Lra.lra.
      assert (Hsq : (E - eps) * (E - eps) = 0) by Lra.lra.
      apply Rmult_integral in Hsq. destruct Hsq; Lra.lra.
    + intros ->. field. Lra.lra.
  - unfold transmission. field. Lra.lra.
  - unfold transmission. field. Lra.lra.
  - unfold transmission. f_equal. f_equal. ring.
  - unfold transmission. f_equal; [ring|]. f_equal. ring.
  - intros E' Habs.
    pose proof (denominator_pos E' eps gamma Hg) as Hd'.
    assert (Hsq : (E - eps) * (E - eps) < (E' - eps) * (E' - eps)).
    { apply Rsqr_lt_abs_1 in Habs. exact Habs. }
    unfold transmission, Rdiv. apply Rmult_lt_compat_l; [exact Hgg|].
    apply Rinv_lt_contravar; [Lra.nra|Lra.lra].
Qed.

(** X16.  For a coupling other than zero and with the relative voltage drop
    between 0 and 1, the differential conductance is a weighted mean of the
    transmissions at the two ends of the bias window: it lies between the
    two, so in (0, 1]; at zero voltage it is the transmission at the Fermi
    energy whatever the voltage drop; and it is unchanged when the voltage
    is reversed and the drop [eta] replaced by [1 - eta]. *)
Theorem X16_diff_conductance_weighs_two_transmissions
    (EF V eta eps gamma : R) :
  gamma ≠ 0 → 0 <= eta <= 1 →
  0 < diff_conductance EF V eta eps gamma <= 1 ∧
  Rmin (transmission (EF + eta * V) eps gamma)
       (transmission (EF + (eta - 1) * V) eps gamma)
    <= diff_conductance EF V eta eps gamma
    <= Rmax (transmission (EF + eta * V) eps gamma)
            (transmission (EF + (eta - 1) * V) eps gamma) ∧
  diff_conductance EF 0 eta eps gamma = transmission EF eps gamma ∧
  diff_conductance EF (- V) (1 - eta) eps gamma
    = diff_conductance EF V eta eps gamma.
Proof.
  intros Hg Heta. unfold diff_conductance.
  pose proof (transmission_bounds (EF + eta * V) eps gamma Hg) as H1.
  pose proof (transmission_bounds (EF + (eta - 1) * V) eps gamma Hg) as H2.
  set (T1 := transmission (EF + eta * V) eps gamma) in *.
  set (T2 := transmission (EF + (eta - 1) * V) eps gamma) in *.
  split; [|split; [|split]].
  - split; Lra.nra.
  - unfold Rmin, Rmax. destruct (Rle_dec T1 T2); split; Lra.nra.
  - replace (EF + eta * 0) with EF by ring.
    replace (EF + (eta - 1) * 0) with EF by ring. ring.
  - replace (EF + (1 - eta) * - V) with (EF + (eta - 1) * V) by ring.
    replace (EF + (1 - eta - 1) * - V) with (EF + eta * V) by ring.
    fold T1 T2. ring.
Qed.

(** X17.  For a voltage and a coupling other than zero, the static
    conductance is the transmission at some energy strictly inside the bias
    window, whose ends are [EF + (eta - 1) V] and [EF + eta V]: it lies in
    (0, 1].  It is unchanged when the voltage is reversed and [eta] replaced
    by [1 - eta], and when the sign of the coupling is changed. *)
Theorem X17_static_conductance_is_a_transmission_in_the_window
    (EF V eta eps gamma : R) :
  gamma ≠ 0 → V ≠ 0 →
  (∃ E, Rmin (EF + (eta - 1) * V) (EF + eta * V) < E
          < Rmax (EF + (eta - 1) * V) (EF + eta * V) ∧
        static_conductance EF V eta eps gamma = transmission E eps gamma) ∧
  0 < static_conductance EF V eta eps gamma <= 1 ∧
  static_conductance EF (- V) (1 - eta) eps gamma
    = static_conductance EF V eta eps gamma ∧
  static_conductance EF V eta eps (- gamma)
    = static_conductance EF V eta eps gamma.
Proof.
  intros Hg HV.
  assert (Hmean : ∃ E, Rmin (EF + (eta - 1) * V) (EF + eta * V) < E
          < Rmax (EF + (eta - 1) * V) (EF + eta * V) ∧
        static_conductance EF V eta eps gamma = transmission E eps gamma).
  { set (a := (EF - eps + eta * V) / gamma).
    set (b := (EF - eps + (eta - 1) * V) / gamma).
    assert (Hab : a - b = V / gamma) by (unfold a, b; field; exact Hg).
    assert (Hvg : V / gamma ≠ 0).
    { unfold Rdiv. apply Rmult_integral_contrapositive_currified;
        [exact HV|by apply Rinv_neq_0_compat]. }
    assert (Hc : ∃ c, Rmin a b < c < Rmax a b ∧
                      atan a - atan b = (a - b) / (1 + c * c)).
    { unfold Rmin, Rmax. destruct (Rle_dec a b) as [Hle|Hgt].
      - destruct (atan_mean_value a b ltac:(Lra.lra)) as (c & Hin & Heq).
        exists c. split; [exact Hin|].
        replace (atan a - atan b) with (- (atan b - atan a)) by ring.
        rewrite Heq. unfold Rdiv. ring.
      - destruct (atan_mean_value b a ltac:(Lra.lra)) as (c & Hin & Heq).
        exists c. split; [exact Hin|exact Heq]. }
    destruct Hc as (c & Hin & Heq).
    exists (eps + c * gamma). split.
    - assert (Ha : EF + eta * V = eps + a * gamma) by (unfold a; field; exact Hg).
      assert (Hb : EF + (eta - 1) * V = eps + b * gamma)
        by (unfold b; field; exact Hg).
      rewrite Ha, Hb. revert Hin. unfold Rmin, Rmax.
      destruct (Rle_dec a b), (Rle_dec (eps + b * gamma) (eps + a * gamma));
        destruct (Rdichotomy _ _ Hg); intros Hin; split; Lra.nra.
    - rewrite transmission_scaled by exact Hg.
      unfold static_conductance. fold a b. rewrite Heq, Hab.
      pose proof (Rle_0_sqr c) as Hs. unfold Rsqr in Hs.
      field. repeat split; Lra.lra. }
  split; [exact Hmean|]. split; [|split].
  - destruct Hmean as (E & _ & ->). by apply transmission_bounds.
  - unfold static_conductance.
    replace (EF - eps + (1 - eta) * - V) with (EF - eps + (eta - 1) * V) by ring.
    replace (EF - eps + (1 - eta - 1) * - V) with (EF - eps + eta * V) by ring.
    field. exact HV.
  - unfold static_conductance.
    replace ((EF - eps + eta * V) / - gamma)
      with (- ((EF - eps + eta * V) / gamma)) by (field; exact Hg).
    replace ((EF - eps + (eta - 1) * V) / - gamma)
      with (- ((EF - eps + (eta - 1) * V) / gamma)) by (field; exact Hg).
    rewrite !atan_opp. field. exact HV.
Qed.
Lemma derivable_pt_lim_atan_affine k c gamma V :
  derivable_pt_lim (λ v, atan ((k + c * v) / gamma)) V
    (/ (1 + ((k + c * V) / gamma) ^ 2) * (c / gamma)).
Proof.
  apply (derivable_pt_lim_comp (λ v, (k + c * v) / gamma) atan).
  - apply (derivable_pt_lim_div_scal (λ v, k + c * v)).
    pose proof (derivable_pt_lim_plus (λ _, k) (mult_real_fct c id) V _ _
                  (derivable_pt_lim_const k V)
                  (derivable_pt_lim_scal id c V 1 (derivable_pt_lim_id V)))
      as Hlin.
    replace (0 + c * 1) with c in Hlin by ring. exact Hlin.
  - apply derivable_pt_lim_atan.
Qed.

Lemma current_atan EF V eta eps gamma :
  V ≠ 0 →
  current EF V eta eps gamma =
  gamma * (atan ((EF - eps + eta * V) / gamma)
           - atan ((EF - eps + (eta - 1) * V) / gamma)).
Proof. intros HV. unfold current, static_conductance. field. exact HV. Qed.

Lemma scaled_sq_pos x gamma : gamma ≠ 0 → 0 < 1 + (x / gamma) ^ 2.
Proof. intros _. pose proof (pow2_ge_0 (x / gamma)). Lra.lra. Qed.

(** X18.  The two conductances agree with each other: for a coupling other
    than zero and at a voltage other than zero, [diff_conductance] is the
    derivative with respect to the voltage of the current, the voltage times
    [static_conductance]. *)
Theorem X18_diff_conductance_is_the_derivative_of_the_current
    (EF V eta eps gamma : R) :
  gamma ≠ 0 → V ≠ 0 →
  derivable_pt_lim (λ v, current EF v eta eps gamma) V
    (diff_conductance EF V eta eps gamma).
Proof.
  intros Hg HV.
  assert (Hlim : derivable_pt_lim
            (λ v, gamma * (atan ((EF - eps + eta * v) / gamma)
                               - atan ((EF - eps + (eta - 1) * v) / gamma))) V
            (diff_conductance EF V eta eps gamma)).
  { replace (diff_conductance EF V eta eps gamma)
      with (gamma * (/ (1 + ((EF - eps + eta * V) / gamma) ^ 2) * (eta / gamma)
                     - / (1 + ((EF - eps + (eta - 1) * V) / gamma) ^ 2)
                       * ((eta - 1) / gamma))).
    - apply (derivable_pt_lim_scal
               (λ v, atan ((EF - eps + eta * v) / gamma)
                         - atan ((EF - eps + (eta - 1) * v) / gamma))).
      apply (derivable_pt_lim_minus
               (λ v, atan ((EF - eps + eta * v) / gamma))
               (λ v, atan ((EF - eps + (eta - 1) * v) / gamma)));
        apply derivable_pt_lim_atan_affine.
    - unfold diff_conductance, transmission.
      pose proof (denominator_pos (EF + eta * V) eps gamma Hg).
      pose proof (denominator_pos (EF + (eta - 1) * V) eps gamma Hg).
      pose proof (scaled_sq_pos (EF - eps + eta * V) gamma Hg).
      pose proof (scaled_sq_pos (EF - eps + (eta - 1) * V) gamma Hg).
      field_simplify_eq; [ring|]. repeat split; try Lra.lra. }
  destruct (Rdichotomy _ _ HV) as [Hneg|Hpos].
  - refine (derivable_pt_lim_locally_ext _ _ V (V - 1) (V / 2) _ _ _ Hlim);
      [Lra.lra|].
    intros v Hv. symmetry. apply current_atan. Lra.lra.
  - refine (derivable_pt_lim_locally_ext _ _ V (V / 2) (V + 1) _ _ _ Hlim);
      [Lra.lra|].
    intros v Hv. symmetry. apply current_atan. Lra.lra.
Qed.

Lemma X15_transmission_is_a_resonance_witness :
  0 < transmission 3 1 2 <= 1 ∧ (transmission 3 1 2 = 1 ↔ 3 = 1).
Proof.
  destruct (X15_transmission_is_a_resonance 3 1 2 ltac:(Lra.lra))
    as (Hbounds & Hpeak & _).
  exact (conj Hbounds Hpeak).
Defined.

Lemma X16_diff_conductance_weighs_two_transmissions_witness :
  0 < diff_conductance 0 1 (1 / 2) 0 1 <= 1.
Proof.
  exact (proj1 (X16_diff_conductance_weighs_two_transmissions
                  0 1 (1 / 2) 0 1 ltac:(Lra.lra) ltac:(Lra.lra))).
Defined.

Lemma X17_static_conductance_is_a_transmission_in_the_window_witness :
  0 < static_conductance 0 1 (1 / 2) 0 1 <= 1.
Proof.
  exact (proj1 (proj2
           (X17_static_conductance_is_a_transmission_in_the_window
              0 1 (1 / 2) 0 1 ltac:(Lra.lra) ltac:(Lra.lra)))).
Defined.

Lemma X18_diff_conductance_is_the_derivative_of_the_current_witness :
  derivable_pt_lim (λ v, current 0 v (1 / 2) 0 1) 1
    (diff_conductance 0 1 (1 / 2) 0 1).
Proof.
  apply (X18_diff_conductance_is_the_derivative_of_the_current
           0 1 (1 / 2) 0 1); Lra.lra.
Defined.

End VoltageIndependentFacts.

(** ** The fit model for resonant tunnelling *)

Module FitModelFacts.
Import SymmetricResonantFitModel.
Local Open Scope R_scope.

Lemma at_insert_eq (v : list R) (i : nat) (p : R) :
  (i < length v)%nat → at_ (<[i := p]> v) i = p.
Proof. intros Hi. unfold at_. by rewrite list_lookup_insert_eq. Qed.

Lemma at_insert_ne (v : list R) (i j : nat) (p : R) :
  i ≠ j → at_ (<[i := p]> v) j = at_ v j.
Proof. intros Hij. unfold at_. by rewrite list_lookup_insert_ne. Qed.

Lemma neg_half_is : -0.5 = - / 2.
Proof. Lra.lra. Qed.

Lemma sqrt_shape g :
  0 < g < 1 → sqrt (g * g * g * (1 - g)) = g * g * sqrt ((1 - g) / g).
Proof.
  intros Hg.
  replace (g * g * g * (1 - g)) with ((g * g) * (g * g) * ((1 - g) / g))
    by (field; Lra.lra).
  rewrite sqrt_mult_alt by Lra.nra.
  rewrite sqrt_square by Lra.nra. reflexivity.
Qed.

Lemma sqrt_ratio_sq g : 0 < g < 1 →
  sqrt ((1 - g) / g) * sqrt ((1 - g) / g) = (1 - g) / g.
Proof.
  intros Hg. apply sqrt_sqrt. apply Rlt_le, Rdiv_lt_0_compat; Lra.lra.
Qed.

Lemma derivable_pt_lim_gauss k p :
  derivable_pt_lim (λ q, exp (k * (q * q))) p (exp (k * (p * p)) * (k * (2 * p))).
Proof.
  apply (derivable_pt_lim_comp (λ q, k * (q * q)) exp).
  - pose proof (derivable_pt_lim_scal (id * id)%F k p _
                  (derivable_pt_lim_mult id id p 1 1
                     (derivable_pt_lim_id p) (derivable_pt_lim_id p))) as H.
    unfold id in H. replace (k * (1 * p + p * 1)) with (k * (2 * p)) in H by ring.
    exact H.
  - apply derivable_pt_lim_exp.
Qed.

Lemma derivable_pt_lim_affine a b c p :
  derivable_pt_lim (λ q, (a * q - b) / c) p (a / c).
Proof.
  apply (derivable_pt_lim_div_scal (λ q, a * q - b)).
  pose proof (derivable_pt_lim_minus (mult_real_fct a id) (λ _, b) p _ _
                (derivable_pt_lim_scal id a p 1 (derivable_pt_lim_id p))
                (derivable_pt_lim_const b p)) as H.
  replace (a * 1 - 0) with a in H by ring. exact H.
Qed.

(** X19.  For a conductance strictly between 0 and 1 and a data value
    other than zero, [jacobian] returns the gradient of [resid]: two
    entries, the one at each index being the derivative of the residual
    with respect to the fit parameter at that index (the coupling at
    [GAMMA], the norm at [NORM]), for any two distinct indices below 2. *)
Theorem X19_jacobian_is_the_gradient_of_resid
    (GAMMA NORM : nat) (fitparam : list R) (g f : R) (i : nat) :
  GAMMA ≠ NORM → (GAMMA < 2)%nat → (NORM < 2)%nat →
  length fitparam = 2%nat → 0 < g < 1 → f ≠ 0 → (i < 2)%nat →
  length (jacobian GAMMA NORM fitparam g f) = 2%nat ∧
  derivable_pt_lim (λ p, resid GAMMA NORM (<[i := p]> fitparam) g f)
    (at_ fitparam i) (at_ (jacobian GAMMA NORM fitparam g f) i).
Proof.
  intros Hne HG HN Hlen Hg Hf Hi.
  split; [unfold jacobian; by rewrite !length_insert|].
  set (gamma := at_ fitparam GAMMA). set (norm := at_ fitparam NORM).
  set (s := sqrt (g * g * g * (1 - g))).
  assert (Hs : 0 < s).
  { unfold s. apply sqrt_lt_R0.
    repeat apply Rmult_lt_0_compat; Lra.lra. }
  assert (Hcase : i = GAMMA ∨ i = NORM) by lia.
  destruct Hcase as [->| ->].
  - (* the derivative in gamma *)
    assert (Hjac : at_ (jacobian GAMMA NORM fitparam g f) GAMMA
                   = (norm / s / f)
                     * (exp (- 0.5 * (1 - g) / g * (gamma * gamma))
                        * (- 0.5 * (1 - g) / g * (2 * gamma)))).
    { unfold jacobian. fold gamma norm.
      rewrite !at_insert_ne by congruence.
      rewrite !at_insert_eq by (rewrite ?length_insert, ?length_replicate; lia).
      replace (- 0.5 * gamma * gamma * (1 - g) / g)
        with (- 0.5 * (1 - g) / g * (gamma * gamma)) by (field; Lra.lra).
      unfold s. rewrite sqrt_shape by exact Hg.
      pose proof (sqrt_ratio_sq g Hg) as Hsq.
      assert (Hr : 0 < sqrt ((1 - g) / g)).
      { apply sqrt_lt_R0, Rdiv_lt_0_compat; Lra.lra. }
      set (r := sqrt ((1 - g) / g)) in *.
      set (e := exp _).
      rewrite neg_half_is.
      apply (Rmult_eq_reg_r (g * g * r * f * g));
        [|repeat apply Rmult_integral_contrapositive_currified; Lra.lra].
      field_simplify; [|repeat split; Lra.lra..].
      replace (r ^ 2) with ((1 - g) / g) by (rewrite <- Hsq; ring).
      field. Lra.lra. }
    rewrite Hjac.
    apply (derivable_pt_lim_ext
             (λ p, norm / s / f * exp (- 0.5 * (1 - g) / g * (p * p)) - 1)).
    { intros p. unfold resid.
      rewrite at_insert_eq by lia. rewrite at_insert_ne by congruence.
      fold norm s.
      replace (- 0.5 * p * p * (1 - g) / g)
        with (- 0.5 * (1 - g) / g * (p * p)) by (field; Lra.lra).
      field. split; Lra.lra. }
    replace (norm / s / f
             * (exp (- 0.5 * (1 - g) / g * (gamma * gamma))
                * (- 0.5 * (1 - g) / g * (2 * gamma))))
      with (norm / s / f
             * (exp (- 0.5 * (1 - g) / g * (gamma * gamma))
                * (- 0.5 * (1 - g) / g * (2 * gamma))) - 0) by ring.
    apply (derivable_pt_lim_minus
             (mult_real_fct (norm / s / f)
                (λ p, exp (- 0.5 * (1 - g) / g * (p * p)))) (λ _, 1)).
    + apply derivable_pt_lim_scal. apply derivable_pt_lim_gauss.
    + apply derivable_pt_lim_const.
  - (* the derivative in norm *)
    set (e := exp (- 0.5 * gamma * gamma * (1 - g) / g)).
    assert (Hjac : at_ (jacobian GAMMA NORM fitparam g f) NORM = (e / s) / f).
    { unfold jacobian. fold gamma norm s e.
      rewrite !at_insert_eq by (rewrite ?length_insert, ?length_replicate; lia).
      field. split; Lra.lra. }
    rewrite Hjac.
    apply (derivable_pt_lim_ext (λ p, (e / s * p - f) / f)).
    { intros p. unfold resid.
      rewrite at_insert_eq by lia. rewrite at_insert_ne by congruence.
      fold gamma s e. field. split; Lra.lra. }
    apply derivable_pt_lim_affine.
Qed.

Lemma X19_jacobian_is_the_gradient_of_resid_witness :
  length (jacobian 0 1 [2; 3] (1 / 2) 1) = 2%nat ∧
  derivable_pt_lim (λ p, resid 0 1 (<[0%nat := p]> [2; 3]) (1 / 2) 1)
    (at_ [2; 3] 0) (at_ (jacobian 0 1 [2; 3] (1 / 2) 1) 0).
Proof.
  apply (X19_jacobian_is_the_gradient_of_resid 0 1 [2; 3] (1 / 2) 1 0);
    [lia | lia | lia | reflexivity | Lra.lra | Lra.lra | lia].
Defined.

End FitModelFacts.

(** ** The fits from all the initial guesses *)

Module MainFitterFacts.
Import Histogram MainFitter.
Local Open Scope Q_scope.
Section WithSolver.
Context {Solver : Type}.
Variables GSL_SUCCESS GSL_CONTINUE GSL_ENOPROG : Z.
Variable nfit : nat.
Variable fdfsolver_set : Solver → list Q → Solver.
Variable fdfsolver_iterate : Solver → Z * Solver.
Variable test_delta : Solver → Z.
Variable dnrm2_f : Solver → Q.
Variable solver_x : Solver → nat → Q.

Local Abbreviation do_while := (do_while GSL_CONTINUE fdfsolver_iterate test_delta).
Local Abbreviation pass := (pass fdfsolver_iterate).
Local Abbreviation run := (run GSL_CONTINUE nfit fdfsolver_set fdfsolver_iterate test_delta).
Local Abbreviation runs := (runs GSL_CONTINUE nfit fdfsolver_set fdfsolver_iterate test_delta).
Local Abbreviation errored_out := (errored_out GSL_SUCCESS GSL_CONTINUE GSL_ENOPROG).
Local Abbreviation try_guess :=
  (try_guess GSL_SUCCESS GSL_CONTINUE GSL_ENOPROG nfit fdfsolver_set
     fdfsolver_iterate test_delta dnrm2_f solver_x).
Local Abbreviation fit_all :=
  (fit_all GSL_SUCCESS GSL_CONTINUE GSL_ENOPROG nfit fdfsolver_set
     fdfsolver_iterate test_delta dnrm2_f solver_x).

Lemma pass_eq (s s1 : Solver) (st : Z) :
  fdfsolver_iterate s = (st, s1) → pass s = s1.
Proof. intros Hit. unfold MainFitter.pass. by rewrite Hit. Qed.

(** The last pass of a loop that stops after one pass. *)
Lemma one_pass (passes iter : nat) (s s1 : Solver) (st status : Z) :
  fdfsolver_iterate s = (st, s1) →
  (st ≠ 0%Z ∧ status = st) ∨
  (st = 0%Z ∧ status = test_delta s1 ∧
   (status = GSL_CONTINUE → (1000 ≤ S iter ∨ S iter = S (iter + passes))%nat)) →
  (iter < S iter ≤ S (iter + passes))%nat ∧
  s1 = Nat.iter (S iter - iter) pass s ∧
  (∀ k, (k < S iter - iter - 1)%nat →
        fst (fdfsolver_iterate (Nat.iter k pass s)) = 0%Z ∧
        test_delta (Nat.iter (S k) pass s) = GSL_CONTINUE) ∧
  (let last := fdfsolver_iterate (Nat.iter (S iter - iter - 1) pass s) in
   (fst last ≠ 0%Z ∧ status = fst last) ∨
   (fst last = 0%Z ∧ status = test_delta s1 ∧
    (status = GSL_CONTINUE →
     (1000 ≤ S iter ∨ S iter = S (iter + passes))%nat))).
Proof.
  intros Hit Hlast.
  replace (S iter - iter - 1)%nat with 0%nat by lia.
  replace (S iter - iter)%nat with 1%nat by lia.
  change (Nat.iter 1 pass s) with (pass s).
  change (Nat.iter 0 pass s) with s.
  rewrite (pass_eq _ _ _ Hit), Hit. cbn [fst].
  split; [lia|]. split; [done|]. split; [intros k; lia|]. exact Hlast.
Qed.

(** What the loop [do ... while] returns, by induction on the passes left. *)
Lemma do_while_spec (passes iter : nat) (s : Solver) (status : Z) (iter' : nat)
    (s' : Solver) :
  do_while passes iter s = (status, iter', s') →
  (iter < iter' ≤ S (iter + passes))%nat ∧
  s' = Nat.iter (iter' - iter) pass s ∧
  (∀ k, (k < iter' - iter - 1)%nat →
        fst (fdfsolver_iterate (Nat.iter k pass s)) = 0%Z ∧
        test_delta (Nat.iter (S k) pass s) = GSL_CONTINUE) ∧
  (let last := fdfsolver_iterate (Nat.iter (iter' - iter - 1) pass s) in
   (fst last ≠ 0%Z ∧ status = fst last) ∨
   (fst last = 0%Z ∧ status = test_delta s' ∧
    (status = GSL_CONTINUE → (1000 ≤ iter' ∨ iter' = S (iter + passes))%nat))).
Proof.
  revert iter s. induction passes as [|passes IH]; intros iter s;
    cbn [MainFitter.do_while].
  - destruct (fdfsolver_iterate s) as [st s1] eqn:Hit.
    destruct (Z.eqb_spec st 0) as [->|Hst]; cbn [negb]; intros [= <- <- <-];
      apply (one_pass 0 iter s s1 _ _ Hit).
    + right. split; [done|]. split; [done|]. intros _. right. lia.
    + left. done.
  - destruct (fdfsolver_iterate s) as [st s1] eqn:Hit.
    destruct (Z.eqb_spec st 0) as [->|Hst]; cbn [negb].
    + destruct (Z.eqb_spec (test_delta s1) GSL_CONTINUE) as [Hc|Hc];
        [destruct (Nat.ltb_spec (S iter) 1000) as [Hlt|Hge]|]; cbn [andb].
      * intros Hrec. destruct (IH _ _ Hrec) as (Hb & Hs & Hearly & Hlast).
        pose proof (pass_eq _ _ _ Hit) as Hpass.
        assert (Hshift : ∀ n, Nat.iter n pass s1 = Nat.iter (S n) pass s).
        { intros n. rewrite Nat.iter_succ_r. by rewrite Hpass. }
        replace (iter' - iter)%nat with (S (iter' - S iter)) by lia.
        split; [lia|]. split; [by rewrite <- Hshift|]. split.
        -- intros [|k] Hk.
           ++ change (Nat.iter 0 pass s) with s.
              change (Nat.iter 1 pass s) with (pass s).
              rewrite Hit, Hpass. done.
           ++ rewrite <- !Hshift. apply Hearly. lia.
        -- replace (S (iter' - S iter) - 1)%nat with (S (iter' - S iter - 1))
             by lia.
           rewrite <- Hshift. cbn zeta in Hlast.
           destruct Hlast as [Hl|(Hl1 & Hl2 & Hl3)]; [by left|].
           right. split; [done|]. split; [done|]. intros Hc'.
           destruct (Hl3 Hc'); [by left|right; lia].
      * intros [= <- <- <-]. apply (one_pass _ iter s s1 _ _ Hit).
        right. split; [done|]. split; [done|]. intros _. left. lia.
      * intros [= <- <- <-]. apply (one_pass _ iter s s1 _ _ Hit).
        right. split; [done|]. split; [done|]. intros Hc'. by destruct Hc.
    + intros [= <- <- <-]. apply (one_pass _ iter s s1 _ _ Hit).
      left. done.
Qed.

(** Passes left beyond what the test [iter < 1000] allows are not used. *)
Lemma do_while_enough (passes iter : nat) (s : Solver) :
  (999 ≤ iter + passes)%nat →
  do_while (S passes) iter s = do_while passes iter s.
Proof.
  revert iter s. induction passes as [|passes IH]; intros iter s Hle.
  - cbn [MainFitter.do_while]. destruct (fdfsolver_iterate s) as [st s1].
    destruct (negb (st =? 0)%Z); [done|].
    destruct (Nat.ltb_spec (S iter) 1000) as [Hlt|Hge]; [lia|].
    by rewrite andb_false_r.
  - change (do_while (S (S passes)) iter s) with
      (let '(status, s0) := fdfsolver_iterate s in
       if negb (status =? 0)%Z then (status, S iter, s0)
       else if (test_delta s0 =? GSL_CONTINUE)%Z && (S iter <? 1000)%nat
            then do_while (S passes) (S iter) s0
            else (test_delta s0, S iter, s0)).
    change (do_while (S passes) iter s) with
      (let '(status, s0) := fdfsolver_iterate s in
       if negb (status =? 0)%Z then (status, S iter, s0)
       else if (test_delta s0 =? GSL_CONTINUE)%Z && (S iter <? 1000)%nat
            then do_while passes (S iter) s0
            else (test_delta s0, S iter, s0)).
    destruct (fdfsolver_iterate s) as [st s1].
    destruct (negb (st =? 0)%Z); [done|].
    destruct ((test_delta s1 =? GSL_CONTINUE)%Z && (S iter <? 1000)%nat);
      [|done].
    apply IH. lia.
Qed.

(** The loop [do ... while] of one run makes at most 1000 passes whatever
    the passes allowed beyond 999. *)
Lemma do_while_more (extra : nat) (s : Solver) :
  do_while (999 + extra) 0 s = do_while 999 0 s.
Proof.
  induction extra as [|extra IH]; [by rewrite Nat.add_0_r|].
  rewrite <- IH. replace (999 + S extra)%nat with (S (999 + extra)) by lia.
  apply do_while_enough. lia.
Qed.

Lemma try_guess_solver (st : Fit) (initval : list Q) :
  solver (try_guess st initval) = snd (run (solver st) (vec st) initval) ∧
  vec (try_guess st initval) = load nfit (vec st) initval.
Proof.
  unfold MainFitter.try_guess.
  destruct (run (solver st) (vec st) initval) as [[status iter] s].
  destruct (errored_out status); [done|].
  destruct (negb (hasfit st) || _); done.
Qed.

Lemma runs_snoc (st : Fit) (initvals : list (list Q)) (initval : list Q) :
  runs (solver st) (vec st) (initvals ++ [initval]) =
  runs (solver st) (vec st) initvals ++
  [ let st' := fold_left try_guess initvals st in
    let r := run (solver st') (vec st') initval in
    (fst (fst r), snd r) ].
Proof.
  revert st. induction initvals as [|g gs IH]; intros st.
  - cbn [app fold_left MainFitter.runs].
    by destruct (run (solver st) (vec st) initval) as [[status iter] s].
  - cbn [app fold_left MainFitter.runs].
    destruct (try_guess_solver st g) as [Hs Hv].
    destruct (run (solver st) (vec st) g) as [[status iter] s] eqn:Hrun.
    cbn [snd] in Hs. rewrite <- Hs, <- Hv, IH. reflexivity.
Qed.

Lemma runs_length (s : Solver) (v : list Q) (initvals : list (list Q)) :
  length (runs s v initvals) = length initvals.
Proof.
  revert s v. induction initvals as [|g gs IH]; intros s v; [done|].
  cbn [MainFitter.runs]. destruct (run s v g) as [[status iter] s'].
  cbn [length]. by rewrite IH.
Qed.

(** What the loop over the guesses keeps, from a state without fit. *)
Lemma fold_try_guess (st : Fit) (initvals : list (list Q)) :
  hasfit st = false →
  let final := fold_left try_guess initvals st in
  let rs := runs (solver st) (vec st) initvals in
  length (bestfit final) = length (bestfit st) ∧
  (hasfit final = false →
   (∀ status s, (status, s) ∈ rs → errored_out status = true) ∧
   bestresid final = bestresid st ∧ bestfit final = bestfit st) ∧
  (hasfit final = true →
   ∃ k status s,
     rs !! k = Some (status, s) ∧ errored_out status = false ∧
     bestresid final = dnrm2_f s ∧
     (∀ i, (i < nfit)%nat → (i < length (bestfit st))%nat →
           bestfit final !! i = Some (solver_x s i)) ∧
     ∀ k' status' s',
       rs !! k' = Some (status', s') → errored_out status' = false →
       dnrm2_f s <= dnrm2_f s' ∧ ((k' < k)%nat → dnrm2_f s < dnrm2_f s')).
Proof.
  intros Hno. induction initvals as [|g gs IH] using rev_ind.
  - cbn [fold_left MainFitter.runs]. split; [done|]. split.
    + intros _. split; [|done]. intros status s []%elem_of_nil.
    + rewrite Hno. discriminate.
  - cbn zeta in *. rewrite fold_left_app, runs_snoc. cbn [fold_left].
    set (final := fold_left try_guess gs st) in *.
    set (rs := runs (solver st) (vec st) gs) in *.
    assert (Hlen : length rs = length gs) by apply runs_length.
    destruct IH as (IHlen & IHno & IHyes).
    unfold MainFitter.try_guess at 1 2 3 4 5 6 7.
    destruct (run (solver final) (vec final) g) as [[status iter] s] eqn:Hrun.
    cbn [fst snd].
    destruct (errored_out status) eqn:Herr; cbn [hasfit bestresid bestfit].
    { (* errored out: the next guess *)
      split; [done|]. split.
      - intros Hf. destruct (IHno Hf) as (Hall & Hr & Hb).
        split; [|done]. intros status' s' [Hin|Hin]%elem_of_app; [eauto|].
        apply list_elem_of_singleton in Hin. congruence.
      - intros Hf. destruct (IHyes Hf) as (k & st_k & s_k & Hk & He & Hr & Hb & Hmin).
        exists k, st_k, s_k. split; [by apply lookup_app_l_Some|].
        do 3 (split; [done|]).
        intros k' status' s' Hk' He'.
        apply lookup_app_Some in Hk' as [Hk'|[Hge Hk']]; [eauto|].
        apply list_lookup_singleton_Some in Hk' as [_ [= <- <-]]. congruence. }
    destruct (hasfit final) eqn:Hfinal; cbn [negb orb].
    + destruct (IHyes eq_refl)
        as (k & st_k & s_k & Hk & He & Hr & Hb & Hmin).
      destruct (Qlt_le_dec (dnrm2_f s) (bestresid final)) as [Hlt|Hge];
        cbn [hasfit bestresid bestfit].
      * (* a better fit *)
        split; [by rewrite (HistogramFacts.for_loop_insert_length (solver_x s))|].
        split; [discriminate|]. intros _.
        exists (length rs), status, s.
        split; [by rewrite lookup_app_r, Nat.sub_diag by lia|].
        do 2 (split; [done|]). split.
        { intros i Hi Hi'.
          apply (HistogramFacts.for_loop_insert_lookup (solver_x s));
            [done|lia]. }
        intros k' status' s' Hk' He'.
        apply lookup_app_Some in Hk' as [Hk'|[Hge Hk']].
        -- destruct (Hmin _ _ _ Hk' He') as [Hle _]. rewrite Hr in Hlt.
           split; [Lqa.lra|intros _; Lqa.lra].
        -- apply list_lookup_singleton_Some in Hk' as [? [= <- <-]].
           split; [Lqa.lra|lia].
      * (* not better: the fit is kept *)
        split; [done|]. split; [discriminate|]. intros _.
        exists k, st_k, s_k. split; [by apply lookup_app_l_Some|].
        do 3 (split; [done|]).
        intros k' status' s' Hk' He'.
        apply lookup_app_Some in Hk' as [Hk'|[Hge' Hk']]; [eauto|].
        apply list_lookup_singleton_Some in Hk' as [Hk0 [= <- <-]].
        rewrite <- Hr. split; [done|].
        apply lookup_lt_Some in Hk. lia.
    + (* the first fit *)
      destruct (IHno eq_refl) as (Hall & Hr & Hb).
      cbn [hasfit bestresid bestfit].
      split; [by rewrite (HistogramFacts.for_loop_insert_length (solver_x s))|].
      split; [discriminate|]. intros _.
      exists (length rs), status, s.
      split; [by rewrite lookup_app_r, Nat.sub_diag by lia|].
      do 2 (split; [done|]). split.
      { intros i Hi Hi'.
        apply (HistogramFacts.for_loop_insert_lookup (solver_x s));
          [done|lia]. }
      intros k' status' s' Hk' He'.
      apply lookup_app_Some in Hk' as [Hk'|[Hge Hk']].
      * apply list_elem_of_lookup_2 in Hk'. apply Hall in Hk'. congruence.
      * apply list_lookup_singleton_Some in Hk' as [? [= <- <-]].
        split; [Lqa.lra|lia].
Qed.

(** X20.  The run of the solver from one guess makes between 1 and 1000
    passes, however many passes are allowed beyond the 999 that follow the
    first; the solver it ends with is the solver set to the guess after
    that many passes; every pass but the last returned status 0 and was
    followed by a [GSL_CONTINUE] of the convergence test; and the status of
    the run is either the status other than 0 of the last pass, or the
    result of the convergence test after it, which is [GSL_CONTINUE] only
    when all the 1000 passes were made. *)
Theorem X20_one_run_makes_at_most_1000_passes
    (s : Solver) (v initval : list Q) (status : Z) (iter : nat) (s' : Solver) :
  run s v initval = (status, iter, s') →
  let s0 := fdfsolver_set s (load nfit v initval) in
  (1 ≤ iter ≤ 1000)%nat ∧
  s' = Nat.iter iter pass s0 ∧
  (∀ k, (k < iter - 1)%nat →
        fst (fdfsolver_iterate (Nat.iter k pass s0)) = 0%Z ∧
        test_delta (Nat.iter (S k) pass s0) = GSL_CONTINUE) ∧
  (let last := fdfsolver_iterate (Nat.iter (iter - 1) pass s0) in
   (fst last ≠ 0%Z ∧ status = fst last) ∨
   (fst last = 0%Z ∧ status = test_delta s' ∧
    (status = GSL_CONTINUE → iter = 1000%nat))) ∧
  ∀ extra, do_while (999 + extra) 0 s0 = (status, iter, s').
Proof.
  intros Hrun s0. unfold MainFitter.run in Hrun. fold s0 in Hrun.
  destruct (do_while_spec _ _ _ _ _ _ Hrun) as (Hb & Hs & Hearly & Hlast).
  rewrite Nat.sub_0_r in Hs, Hearly, Hlast.
  split; [lia|]. split; [exact Hs|]. split; [exact Hearly|]. split.
  - cbn zeta in *. destruct Hlast as [Hl|(Hl1 & Hl2 & Hl3)]; [by left|].
    right. split; [done|]. split; [done|]. intros Hc.
    destruct (Hl3 Hc); lia.
  - intros extra. by rewrite do_while_more.
Qed.

(** X21.  The loop over the initial guesses keeps the first of the lowest
    residuals: there is no fit at the end exactly when every run errored
    out (a status other than [GSL_CONTINUE], [GSL_SUCCESS] and
    [GSL_ENOPROG]), and then the best residual and the best fit are
    untouched; otherwise the best residual is the residual of a run that
    did not error out, the first [nfit] entries of the best fit are the
    parameters of the solver at the end of that run, no run that did not
    error out has a lower residual, and every earlier one has a higher
    residual.  The length of the best fit does not change. *)
Theorem X21_best_fit_is_the_first_lowest_residual
    (st : Fit) (initvals : list (list Q)) :
  let final := fit_all st initvals in
  let rs := runs (solver st) (vec st) initvals in
  length (bestfit final) = length (bestfit st) ∧
  (hasfit final = false ↔
   ∀ status s, (status, s) ∈ rs → errored_out status = true) ∧
  (hasfit final = false →
   bestresid final = bestresid st ∧ bestfit final = bestfit st) ∧
  (hasfit final = true →
   ∃ k status s,
     rs !! k = Some (status, s) ∧ errored_out status = false ∧
     bestresid final = dnrm2_f s ∧
     (∀ i, (i < nfit)%nat → (i < length (bestfit st))%nat →
           bestfit final !! i = Some (solver_x s i)) ∧
     ∀ k' status' s',
       rs !! k' = Some (status', s') → errored_out status' = false →
       dnrm2_f s <= dnrm2_f s' ∧ ((k' < k)%nat → dnrm2_f s < dnrm2_f s')).
Proof.
  intros final rs.
  pose proof (fold_try_guess
                {| solver := solver st; vec := vec st; hasfit := false;
                   bestresid := bestresid st; bestfit := bestfit st |}
                initvals eq_refl) as H.
  cbn zeta in H. cbn [solver vec bestresid bestfit] in H.
  fold (fit_all st initvals) in H. fold final rs in H.
  destruct H as (Hlen & Hno & Hyes).
  split; [exact Hlen|]. split; [|split; [|exact Hyes]].
  - split; [intros Hf; by apply Hno|].
    intros Hall. destruct (hasfit final) eqn:Hf; [|done].
    destruct (Hyes eq_refl) as (k & status & s & Hk & He & _).
    apply list_elem_of_lookup_2 in Hk. apply Hall in Hk. congruence.
  - intros Hf. by apply Hno.
Qed.

End WithSolver.

(** A solver that takes the first value of the guess, makes one pass that
    fails (status 7) at the value 3, and converges at once otherwise; its
    residual is the squared distance to 3.  The guess 3 errors out; of the
    guesses 2 and 4, with the same residual, the first is kept. *)
Example first_lowest_residual_is_kept :
  let final :=
    fit_all 0 (-2) 27 1
      (λ _ v, at_ v 0) (λ x, (if Qeq_bool x 3 then 7%Z else 0%Z, x))
      (λ _, 0%Z) (λ x, (x - 3) * (x - 3)) (λ x _, x)
      {| solver := 0; vec := [0]; hasfit := false; bestresid := 0;
         bestfit := [0] |}
      [[5]; [3]; [2]; [4]] in
  hasfit final = true ∧ bestresid final == 1 ∧ bestfit final = [2].
Proof. vm_compute. done. Qed.

Lemma X20_one_run_makes_at_most_1000_passes_witness : (1 ≤ 3 ≤ 1000)%nat.
Proof.
  exact (proj1 (X20_one_run_makes_at_most_1000_passes (Solver := nat)
                  (-2) 0 (λ _ _, 0%nat) (λ n, (0%Z, S n))
                  (λ n, if (n <? 3)%nat then (-2)%Z else 0%Z)
                  0%nat [] [] 0%Z 3%nat 3%nat
                  ltac:(vm_compute; reflexivity))).
Defined.

End MainFitterFacts.

(** ** The histogram on the doubles of the code *)

Module HistogramDoublesFacts.
Import Floats HistogramDoubles.

(** The value [bin_values] stores for bin [i]. *)
Lemma doubles_bin_values_lookup (dmin dmax dwidth : float) (bs : BinStyle)
    (i : nat) :
  (i < N.to_nat (nbins bs))%nat →
  bin_values dmin dmax dwidth bs !! i =
  Some (0.5 * (invmask bs (dmin + of_index i * dwidth)
               + invmask bs (dmin + of_index (i + 1) * dwidth)))%float.
Proof.
  intros Hi. unfold bin_values.
  rewrite (HistogramFacts.for_loop_insert_lookup
             (λ j, (0.5 * (invmask bs (dmin + of_index j * dwidth)
                           + invmask bs (dmin + of_index (j + 1) * dwidth)))%float));
    [done|done|by rewrite length_replicate].
Qed.

Lemma doubles_bin_values_length (dmin dmax dwidth : float) (bs : BinStyle) :
  length (bin_values dmin dmax dwidth bs) = N.to_nat (nbins bs).
Proof.
  unfold bin_values.
  rewrite (HistogramFacts.for_loop_insert_length
             (λ j, (0.5 * (invmask bs (dmin + of_index j * dwidth)
                           + invmask bs (dmin + of_index (j + 1) * dwidth)))%float)).
  by rewrite length_replicate.
Qed.

Lemma doubles_set_bin_value_length ext binstyles (n : nat)
    (bv : list (list float)) :
  length (for_loop n (set_bin_value ext binstyles) bv) = length bv.
Proof.
  induction n as [|n IH]; [done|]. rewrite for_loop_S. unfold set_bin_value at 1.
  destruct (binstyles !! n) as [[bs|]|]; by rewrite ?length_insert.
Qed.

(** The second loop of [bin_data] stores the bin values of every axis that
    has a style. *)
Lemma doubles_set_bin_value_loop ext binstyles (n : nat)
    (bv : list (list float)) (j : nat) (bs : BinStyle) :
  (j < n)%nat → (j < length bv)%nat → binstyles !! j = Some (Some bs) →
  for_loop n (set_bin_value ext binstyles) bv !! j =
  Some (bin_values (mask bs (fst (ext_at ext j))) (mask bs (snd (ext_at ext j)))
          ((mask bs (snd (ext_at ext j)) - mask bs (fst (ext_at ext j)))
           / of_size (nbins bs))%float bs).
Proof.
  intros Hn Hl Hbs. induction n as [|n IH]; [lia|].
  rewrite for_loop_S. unfold set_bin_value at 1.
  destruct (decide (j = n)) as [->|Hne].
  - rewrite Hbs. apply list_lookup_insert_eq.
    by rewrite doubles_set_bin_value_length.
  - destruct (binstyles !! n) as [[bs'|]|];
      rewrite ?list_lookup_insert_ne by done; apply IH; lia.
Qed.

(** What a [bin_data] that returns has stored as bin values. *)
Lemma doubles_bin_data_Ok (h h' : Histogram) binstyles :
  bin_data h binstyles = Ok h' →
  length binstyles = ndim h ∧
  bin_value h' = for_loop (ndim h) (set_bin_value (extremes h) binstyles)
                   (resize (ndim h) [] (bin_value h)).
Proof.
  unfold bin_data. destruct (haveBinned h); [done|].
  destruct (length binstyles =? ndim h)%nat eqn:Hlen; [|done].
  apply Nat.eqb_eq in Hlen. cbn [negb].
  destruct (for_loopM _ _ _) as [t|e]; [|done]. cbn [rbind].
  intros [= <-]. done.
Qed.



(** Where the masked span overflows the coordinates are what the doubles
    give: on the finite values -2^1023 and 2^1023 with two linear bins the
    width is infinite and the coordinates are NaN and +infinity; on a
    histogram without tuple, whose extremes are the initial pair, one linear
    bin gets the coordinate NaN. *)
Example coordinates_where_the_span_overflows :
  (∃ h h', add_all (new 1) [[-0x1p+1023]; [0x1p+1023]]%float = Ok h ∧
           extremes h = [(-0x1p+1023, 0x1p+1023)]%float ∧
           bin_data h [Some (BinLinear 2)] = Ok h' ∧
           bin_value h' = [[nan; infinity]]) ∧
  (∃ h', bin_data (new 1) [Some (BinLinear 1)] = Ok h' ∧
         bin_value h' = [[nan]]).
Proof.
  split.
  - eexists _, _. split; [vm_compute; reflexivity|].
    split; [reflexivity|]. split; [vm_compute; reflexivity|]. reflexivity.
  - eexists. split; [vm_compute; reflexivity|]. reflexivity.
Qed.

(** With a mask that is not linear the coordinate is not the centre of an
    equal share of the raw interval: on [[1, 2]] with two bins under
    u = -1/x the coordinates are below 1.25 and 1.75. *)
Example doubles_masked_bins_are_not_raw_centres :
  ∃ h h' a b, add_all (new 1) [[1]; [2]]%float = Ok h ∧
              bin_data h [Some (BinNegReciprocal 2)] = Ok h' ∧
              bin_value h' = [[a; b]] ∧
              (a <? 1.25)%float = true ∧ (b <? 1.75)%float = true.
Proof.
  eexists _, _, _, _. split; [vm_compute; reflexivity|].
  split; [vm_compute; reflexivity|]. split; [reflexivity|].
  split; vm_compute; reflexivity.
Qed.

(** *** Values that are not finite, and the histogram without tuple *)


(** [add_data] accepts an infinity and NaN.  After the one tuple
    (+infinity) the stored minimum is still [DBL_MAX], which is not a value
    inserted; after the tuples (0.5) and (NaN) the stored pair is
    (0.5, 0.5), which is neither at most nor at least NaN. *)
Lemma C10_extremes_with_infinity_or_NaN :
  (∃ h, add_data (new 1) [infinity] = Ok h ∧
        extremes h = [(DBL_MAX, infinity)] ∧
        ¬ is_minimum DBL_MAX (column 0 [[infinity]])) ∧
  (∃ h, add_all (new 1) [[0.5]; [nan]]%float = Ok h ∧
        extremes h = [(0.5, 0.5)]%float ∧
        ¬ is_minimum 0.5%float (column 0 [[0.5]; [nan]]%float) ∧
        ¬ is_maximum 0.5%float (column 0 [[0.5]; [nan]]%float)).
Proof.
  split.
  - eexists. split; [vm_compute; reflexivity|]. split; [reflexivity|].
    intros [(x & Hx & Heq) _]. cbn in Hx.
    apply list_elem_of_singleton in Hx. subst x. vm_compute in Heq. discriminate.
  - eexists. split; [vm_compute; reflexivity|]. split; [reflexivity|].
    split; intros [_ Hall];
      (specialize (Hall nan);
       assert (Hin : nan ∈ column 0 [[0.5]; [nan]]%float)
         by (cbn; apply list_elem_of_further, list_elem_of_here);
       specialize (Hall Hin); vm_compute in Hall; discriminate).
Qed.


End HistogramDoublesFacts.
